(** * Schema-registry decode processor: identifier codec, decoder cache, lifecycle

    A shallow embedding of
    [internal/impl/confluent/processor_schema_registry_decode.go]
    and the properties of its wire-envelope parser ([extractID]), its decoder
    cache ([getDecoder], [clearExpired]), its per-message entry point
    ([Process]) and its shutdown ([Close]). *)

From Stdlib Require Import ZArith Strings.Byte DecimalString.
From stdpp Require Import base tactics option list gmap strings.

Local Open Scope Z_scope.

(** ** Go values *)

(** A Go [error] value is identified by its message; [nil] is [None]. *)
Definition error : Type := string.

Definition errors_New (msg : string) : error := msg.

(** [%v] of an unsigned integer prints it in decimal. *)
Definition fmt_v_uint (n : N) : string := NilZero.string_of_uint (N.to_uint n).

(** Run-time panics the modelled code can raise. *)
Inductive panic : Type :=
  | slice_bounds_out_of_range_cap (high capacity : nat)
      (* "slice bounds out of range [:high] with capacity capacity" *)
  | slice_bounds_out_of_range_low (low high : nat)
      (* "slice bounds out of range [low:high]" *)
  | index_out_of_range (index length : nat)
      (* "index out of range [index] with length length" *)
  | nil_pointer_dereference
  | unlock_of_unlocked_mutex.

(** What running a piece of code gives: it returns, it panics, or it waits
    for a lock it cannot get. *)
Inductive outcome (A : Type) : Type :=
  | Return (a : A)
  | Panic (p : panic)
  | Blocked.
Arguments Return {A} a.
Arguments Panic {A} p.
Arguments Blocked {A}.

#[global] Instance outcome_ret : MRet outcome := λ A a, Return a.
#[global] Instance outcome_bind : MBind outcome := λ A B f m,
  match m with
  | Return a => f a
  | Panic p => Panic p
  | Blocked => Blocked
  end.

(** ** Byte slices *)

(** A [[]byte]: the [len] visible elements, and the elements of the backing
    array between [len] and [cap]. *)
Record slice : Type := mkSlice { elems : list byte; spare : list byte }.

Definition nil_slice : slice := mkSlice [] [].
Definition len (b : slice) : nat := length (elems b).
Definition cap (b : slice) : nat := (length (elems b) + length (spare b))%nat.

(** [b[i]] *)
Definition index (b : slice) (i : nat) : outcome byte :=
  match elems b !! i with
  | Some x => Return x
  | None => Panic (index_out_of_range i (len b))
  end.

(** [b[low:high]]. The language specification, under "Slice expressions":
    "For slices, the upper index bound is the slice capacity cap(a) rather
    than the length"; the indices are in range when
    [0 <= low <= high <= cap(b)]. The result shares the backing array: it
    shows the elements from [low] to [high] and keeps the rest as spare
    capacity. *)
Definition slice_low_high (b : slice) (low high : nat) : outcome slice :=
  if decide (cap b < high)%nat then
    Panic (slice_bounds_out_of_range_cap high (cap b))
  else if decide (high < low)%nat then
    Panic (slice_bounds_out_of_range_low low high)
  else
    let backing := elems b ++ spare b in
    Return (mkSlice (take (high - low) (drop low backing)) (drop high backing)).

(** [b[low:]]: a missing high index defaults to the length of the slice, so
    the indices are in range when [low <= len(b)]. *)
Definition slice_low (b : slice) (low : nat) : outcome slice :=
  if decide (len b < low)%nat then
    Panic (slice_bounds_out_of_range_low low (len b))
  else
    Return (mkSlice (drop low (elems b)) (spare b)).

(** [uint32(x)] of a byte. *)
Definition byte_unsigned (x : byte) : Z := Z.of_N (Byte.to_N x).

(** [byte(v)] of an unsigned integer: the low eight bits. *)
Definition byte_of_Z (v : Z) : byte :=
  default x00 (Byte.of_N (Z.to_N (v mod 256))).

(** [binary.BigEndian.Uint32]. *)
Definition BigEndian_Uint32 (b : slice) : outcome Z :=
  _ ← index b 3;
  b0 ← index b 0;
  b1 ← index b 1;
  b2 ← index b 2;
  b3 ← index b 3;
  mret (Z.lor (Z.lor (Z.lor (byte_unsigned b3)
                            (Z.shiftl (byte_unsigned b2) 8))
                     (Z.shiftl (byte_unsigned b1) 16))
              (Z.shiftl (byte_unsigned b0) 24)).

(** [binary.BigEndian.PutUint32], as the bytes written. *)
Definition BigEndian_PutUint32 (v : Z) : list byte :=
  [byte_of_Z (Z.shiftr v 24); byte_of_Z (Z.shiftr v 16);
   byte_of_Z (Z.shiftr v 8); byte_of_Z v].

(** [int(x)] where [int] has 64 bits, as on the platforms the processor is
    built for by default: two's complement wrap-around. *)
Definition int_wrap (z : Z) : Z := (z + 2 ^ 63) mod 2 ^ 64 - 2 ^ 63.

(** ** Identifier codec *)

Definition err_empty : error := errors_New "message is empty".

Definition err_version (b0 : byte) : error :=
  "serialization format version number " +:+ fmt_v_uint (Byte.to_N b0)
    +:+ " not supported".

(** The three named results [(id, remaining, err)]; they start at their zero
    values and a bare [return] gives them back as they stand. *)
Definition extractID (b : slice) : outcome (Z * slice * option error) :=
  if decide (len b = 0%nat) then
    mret (0, nil_slice, Some err_empty)
  else
    b0 ← index b 0;
    if decide (byte_unsigned b0 ≠ 0) then
      mret (0, nil_slice, Some (err_version b0))
    else
      id_bytes ← slice_low_high b 1 5;
      u ← BigEndian_Uint32 id_bytes;
      remaining ← slice_low b 5;
      mret (int_wrap u, remaining, None).

(** A synthetic encoder of the wire envelope: the format byte, the identifier
    in four big-endian bytes, the payload. *)
Definition encode_envelope (id : Z) (payload : list byte) : list byte :=
  x00 :: BigEndian_PutUint32 id ++ payload.

(** The identifier the four bytes after the format byte stand for, as a
    number in base 256, most significant byte first. *)
Definition envelope_id (l : list byte) : Z :=
  byte_unsigned (nth 1 l x00) * 2 ^ 24 + byte_unsigned (nth 2 l x00) * 2 ^ 16 +
  byte_unsigned (nth 3 l x00) * 2 ^ 8 + byte_unsigned (nth 4 l x00).

(** ** Time *)

(** A [time.Time] as nanoseconds since the Unix epoch, a [time.Duration] as
    nanoseconds. *)
Definition Time : Type := Z.
Definition Duration : Type := Z.

Definition time_Second : Duration := 1000000000.
Definition time_Minute : Duration := 60 * time_Second.

(** [t.Add(d)] and [t.Unix()]. *)
Definition time_Add (t : Time) (d : Duration) : Time := t + d.
Definition time_Unix (t : Time) : Z := t `div` 1000000000.

Definition schemaStaleAfter : Duration := time_Minute * 10.
Definition schemaCachePurgePeriod : Duration := time_Minute.

(** ** Messages and decoders *)

(** Modelled from the spec: [service.Message] (package [public/service],
    not part of the file). A message has a byte representation, which may be
    unavailable, and a decoded document; [SetBytes] replaces the byte
    payload. *)
Record Message : Type := mkMessage {
  msg_as_bytes : slice * option error;
  msg_document : option string
}.

Definition AsBytes (m : Message) : slice * option error := msg_as_bytes m.

Definition SetBytes (b : slice) (m : Message) : Message :=
  {| msg_as_bytes := (b, None); msg_document := msg_document m |}.

(** [type schemaDecoder func(m *service.Message) error]: a function value,
    which may be [nil]; calling it leaves the message in a new state and
    returns an error or [nil]. *)
Definition schemaDecoder : Type := option (Message → Message * option error).

Record cachedSchemaDecoder : Type := mkCached {
  lastUsedUnixSeconds : Z;
  decoder : schemaDecoder
}.

(** Modelled from the spec: the registry's answer to a fetch by identifier
    ([SchemaInfo], declared with the registry client, not part of the file):
    a type tag, the schema text and the referenced sub-schemas. *)
Record SchemaInfo : Type := mkSchemaInfo {
  info_Type : string;
  info_Schema : string;
  info_References : list string
}.

(** ** Locks *)

(** [sync.RWMutex]: the number of readers holding it and whether a writer
    holds it. *)
Record RWMutex : Type := mkRWMutex { readers : nat; writer : bool }.

(** [sync.Mutex]: whether it is held. *)
Definition Mutex : Type := bool.

(** ** The processor *)

(** Calls that leave the processor: the registry fetch and the two decoder
    builders. *)
Inductive call : Type :=
  | call_GetSchemaByID (id : Z)
  | call_getProtobufDecoder (info : SchemaInfo)
  | call_getAvroDecoder (info : SchemaInfo).

(** The fields of [schemaRegistryDecoder] the modelled methods use. [client]
    stands for the registry client together with the registry behind it;
    [calls] is not a field of the source: it records, latest first, the
    calls made through the client and the builders. *)
Record schemaRegistryDecoder (Registry : Type) : Type := mkDecoder {
  client : Registry;
  schemas : gmap Z cachedSchemaDecoder;
  cacheMut : RWMutex;
  requestMut : Mutex;
  shutSig : bool;
  calls : list call
}.
Arguments mkDecoder {Registry}.
Arguments client {Registry}.
Arguments schemas {Registry}.
Arguments cacheMut {Registry}.
Arguments requestMut {Registry}.
Arguments shutSig {Registry}.
Arguments calls {Registry}.

(** Code that runs on the processor's state. *)
Definition M (S A : Type) : Type := S → outcome (A * S).

#[global] Instance M_ret {S} : MRet (M S) := λ A a s, Return (a, s).
#[global] Instance M_bind {S} : MBind (M S) := λ A B f m s,
  match m s with
  | Return (a, s') => f a s'
  | Panic p => Panic p
  | Blocked => Blocked
  end.

(** Pure code that may panic, run inside [M]. *)
Definition lift {S A} (o : outcome A) : M S A := λ s,
  match o with
  | Return a => Return (a, s)
  | Panic p => Panic p
  | Blocked => Blocked
  end.

Definition err_schema_type (t : string) : error :=
  "schema type " +:+ t +:+ " not supported".

Definition err_as_bytes : error :=
  errors_New "unable to reference message as bytes".

Section Processor.

(** The registry client and the decoder builders live in other files of the
    package; they are parameters here. A fetch or a build may change the
    state behind the client. *)
Context {Registry : Type}.
Context (GetSchemaByID : Z → Registry → (SchemaInfo * option error) * Registry).
Context (getProtobufDecoder getAvroDecoder :
  SchemaInfo → Registry → (schemaDecoder * option error) * Registry).

#[local] Abbreviation State := (schemaRegistryDecoder Registry).
#[local] Abbreviation Run := (M State).

Definition set_schemas (f : gmap Z cachedSchemaDecoder → gmap Z cachedSchemaDecoder)
    (s : State) : State :=
  mkDecoder (client s) (f (schemas s)) (cacheMut s) (requestMut s)
            (shutSig s) (calls s).

Definition set_cacheMut (m : RWMutex) (s : State) : State :=
  mkDecoder (client s) (schemas s) m (requestMut s) (shutSig s) (calls s).

Definition set_requestMut (m : Mutex) (s : State) : State :=
  mkDecoder (client s) (schemas s) (cacheMut s) m (shutSig s) (calls s).

(** [s.cacheMut.RLock()] *)
Definition cacheMut_RLock : Run () := λ s,
  if writer (cacheMut s) then Blocked
  else Return ((), set_cacheMut (mkRWMutex (S (readers (cacheMut s))) false) s).

(** [s.cacheMut.RUnlock()] *)
Definition cacheMut_RUnlock : Run () := λ s,
  match readers (cacheMut s) with
  | O => Panic unlock_of_unlocked_mutex
  | S n => Return ((), set_cacheMut (mkRWMutex n (writer (cacheMut s))) s)
  end.

(** [s.cacheMut.Lock()] *)
Definition cacheMut_Lock : Run () := λ s,
  match cacheMut s with
  | mkRWMutex O false => Return ((), set_cacheMut (mkRWMutex O true) s)
  | _ => Blocked
  end.

(** [s.cacheMut.Unlock()] *)
Definition cacheMut_Unlock : Run () := λ s,
  if writer (cacheMut s)
  then Return ((), set_cacheMut (mkRWMutex (readers (cacheMut s)) false) s)
  else Panic unlock_of_unlocked_mutex.

(** [s.requestMut.Lock()] *)
Definition requestMut_Lock : Run () := λ s,
  if requestMut s then Blocked else Return ((), set_requestMut true s).

(** [s.requestMut.Unlock()] *)
Definition requestMut_Unlock : Run () := λ s,
  if requestMut s then Return ((), set_requestMut false s)
  else Panic unlock_of_unlocked_mutex.

(** [c, ok := s.schemas[id]]: [c] is a pointer to the entry, [ok] is
    [is_Some]. *)
Definition load_schema (id : Z) : Run (option cachedSchemaDecoder) := λ s,
  Return (schemas s !! id, s).

(** [atomic.StoreInt64(&c.lastUsedUnixSeconds, t)] for the entry [c] that
    [s.schemas[id]] points to. *)
Definition store_lastUsed (id : Z) (t : Z) : Run () := λ s,
  Return ((), set_schemas (alter (λ c, mkCached t (decoder c)) id) s).

(** [s.schemas[id] = &cachedSchemaDecoder{...}] *)
Definition store_schema (id : Z) (c : cachedSchemaDecoder) : Run () := λ s,
  Return ((), set_schemas (insert id c) s).

(** [s.client.GetSchemaByID(ctx, id)] *)
Definition client_GetSchemaByID (id : Z) : Run (SchemaInfo * option error) := λ s,
  let '(r, reg) := GetSchemaByID id (client s) in
  Return (r, mkDecoder reg (schemas s) (cacheMut s) (requestMut s) (shutSig s)
                       (call_GetSchemaByID id :: calls s)).

(** [s.getProtobufDecoder(ctx, info)] and [s.getAvroDecoder(ctx, info)] *)
Definition build (c : call)
    (builder : SchemaInfo → Registry → (schemaDecoder * option error) * Registry)
    (info : SchemaInfo) : Run (schemaDecoder * option error) := λ s,
  let '(r, reg) := builder info (client s) in
  Return (r, mkDecoder reg (schemas s) (cacheMut s) (requestMut s) (shutSig s)
                       (c :: calls s)).

(** The [switch resPayload.Type] of [getDecoder]. *)
Definition build_decoder (resPayload : SchemaInfo) : Run (schemaDecoder * option error) :=
  if decide (info_Type resPayload = "PROTOBUF") then
    build (call_getProtobufDecoder resPayload) getProtobufDecoder resPayload
  else if decide (info_Type resPayload = "" ∨ info_Type resPayload = "AVRO") then
    build (call_getAvroDecoder resPayload) getAvroDecoder resPayload
  else
    mret (None, Some (err_schema_type (info_Type resPayload))).

(** The part of [getDecoder] that runs on a confirmed miss, from the fetch to
    the insertion. *)
Definition fetch_and_build (now : Time) (id : Z) : Run (schemaDecoder * option error) :=
  '(resPayload, err) ← client_GetSchemaByID id;
  match err with
  | Some e => mret (None, Some e)
  | None =>
    '(decoder, err) ← build_decoder resPayload;
    match err with
    | Some e => mret (None, Some e)
    | None =>
      cacheMut_Lock;;
      store_schema id (mkCached (time_Unix now) decoder);;
      cacheMut_Unlock;;
      mret (decoder, None)
    end
  end.

(** [getDecoder]; [now] is the reading of [time.Now()] on the path taken. The
    deferred [s.requestMut.Unlock()] runs after the body that follows
    [s.requestMut.Lock()]. *)
Definition getDecoder (now : Time) (id : Z) : Run (schemaDecoder * option error) :=
  cacheMut_RLock;;
  c ← load_schema id;
  cacheMut_RUnlock;;
  match c with
  | Some c =>
    store_lastUsed id (time_Unix now);;
    mret (decoder c, None)
  | None =>
    requestMut_Lock;;
    r ← (cacheMut_RLock;;
         c ← load_schema id;
         cacheMut_RUnlock;;
         match c with
         | Some c =>
           store_lastUsed id (time_Unix now);;
           mret (decoder c, None)
         | None => fetch_and_build now id
         end);
    requestMut_Unlock;;
    mret r
  end.

(** [decoder(msg)]: calling a [nil] function value panics. *)
Definition call_decoder (d : schemaDecoder) (msg : Message) : Run (Message * option error) :=
  match d with
  | Some f => mret (f msg)
  | None => lift (Panic nil_pointer_dereference)
  end.

(** [Process]. The message is passed by pointer: the first component of the
    result is the state the call leaves it in, the second is the returned
    pair of batch ([nil] is [[]]) and error. *)
Definition Process (now : Time) (msg : Message)
    : Run (Message * (list Message * option error)) :=
  let '(b, err) := AsBytes msg in
  match err with
  | Some _ => mret (msg, ([], Some err_as_bytes))
  | None =>
    '(id, remaining, err) ← lift (extractID b);
    match err with
    | Some e => mret (msg, ([], Some e))
    | None =>
      '(decoder, err) ← getDecoder now id;
      match err with
      | Some e => mret (msg, ([], Some e))
      | None =>
        let msg := SetBytes remaining msg in
        '(msg, err) ← call_decoder decoder msg;
        match err with
        | Some e => mret (msg, ([], Some e))
        | None => mret (msg, ([msg], None))
        end
      end
    end
  end.

(** ** Eviction *)

(** [delete(s.schemas, k)] *)
Definition delete_schema (k : Z) : Run () := λ s,
  Return ((), set_schemas (delete k) s).

(** [for k, v := range s.schemas]: the language leaves the order of the visit
    open; [order] is the order in which the keys come. *)
Definition range_schemas (order : list Z) : Run (list (Z * cachedSchemaDecoder)) := λ s,
  Return (omap (λ k, (λ v, (k, v)) <$> schemas s !! k) order, s).

(** [order] is an order in which [range] can visit the keys of [m]. *)
Definition visits (order : list Z) (m : gmap Z cachedSchemaDecoder) : Prop :=
  order ≡ₚ (map_to_list m).*1.

(** The loop of the first pass of [clearExpired]. *)
Fixpoint gather_targets (targetTime : Z) (entries : list (Z * cachedSchemaDecoder))
    (targets : list Z) : list Z :=
  match entries with
  | [] => targets
  | (k, v) :: rest =>
    gather_targets targetTime rest
      (if decide (lastUsedUnixSeconds v < targetTime) then targets ++ [k]
       else targets)
  end.

(** The loop of the second pass: [s.schemas[k]] is [nil] for a key that is no
    longer in the map, and reading a field through it panics. *)
Fixpoint remove_stale (targetTime : Z) (targets : list Z) : Run () :=
  match targets with
  | [] => mret ()
  | k :: rest =>
    c ← load_schema k;
    match c with
    | None => lift (Panic nil_pointer_dereference)
    | Some c =>
      (if decide (lastUsedUnixSeconds c < targetTime) then delete_schema k
       else mret ());;
      remove_stale targetTime rest
    end
  end.

Definition targetTime_of (now : Time) : Z :=
  time_Unix (time_Add now (- schemaStaleAfter)).

(** [clearExpired]. Between the read-locked pass and the write-locked pass the
    cache is unlocked: [interleaved] is what the other goroutines do to the
    processor in that window ([mret ()] when they do nothing). *)
Definition clearExpired (now : Time) (order : list Z) (interleaved : Run ()) : Run () :=
  cacheMut_RLock;;
  let targetTime := targetTime_of now in
  entries ← range_schemas order;
  let targets := gather_targets targetTime entries [] in
  cacheMut_RUnlock;;
  interleaved;;
  if decide (0 < length targets)%nat then
    cacheMut_Lock;;
    remove_stale targetTime targets;;
    cacheMut_Unlock
  else
    mret ().

(** ** Shutdown *)

(** Modelled from the spec: [shutdown.Signaller.CloseNow] (package
    [internal/shutdown], not part of the file) raises the shutdown signal;
    raising it again changes nothing. *)
Definition shutSig_CloseNow : Run () := λ s,
  Return ((), mkDecoder (client s) (schemas s) (cacheMut s) (requestMut s)
                        true (calls s)).

(** [for k := range s.schemas { delete(s.schemas, k) }] *)
Fixpoint delete_each (keys : list Z) : Run () :=
  match keys with
  | [] => mret ()
  | k :: rest => delete_schema k;; delete_each rest
  end.

(** [Close]; [ctx_Err] is what [ctx.Err()] returns. The deferred
    [s.cacheMut.Unlock()] runs after the body on both return paths. *)
Definition Close (ctx_Err : option error) (order : list Z) : Run (option error) :=
  shutSig_CloseNow;;
  cacheMut_Lock;;
  r ← (match ctx_Err with
       | Some e => mret (Some e)
       | None =>
         entries ← range_schemas order;
         delete_each entries.*1;;
         mret None
       end);
  cacheMut_Unlock;;
  mret r.

(** ** Concurrent callers of [getDecoder] *)

(** Where a goroutine stands inside [getDecoder], with the locals it holds;
    each constructor names the statement it runs next. *)
Inductive thread : Type :=
  | at_first_RLock
  | at_first_load
  | at_first_RUnlock (c : option cachedSchemaDecoder)
  | at_first_check (c : option cachedSchemaDecoder)
  | at_second_RLock
  | at_second_load
  | at_second_RUnlock (c : option cachedSchemaDecoder)
  | at_second_check (c : option cachedSchemaDecoder)
  | at_build (resPayload : SchemaInfo)
  | at_Lock (decoder : schemaDecoder)
  | at_store (decoder : schemaDecoder)
  | at_Unlock (decoder : schemaDecoder)
  | at_deferred_Unlock (r : schemaDecoder * option error)
  | returned (r : schemaDecoder * option error).

(** One atomic step of a goroutine running [getDecoder id]: a lock
    operation, a map access, an atomic store, or a call that leaves the
    processor. [now] is the clock reading, for the steps that take one. *)
Definition thread_step (now : Time) (id : Z) (t : thread) : Run thread :=
  match t with
  | at_first_RLock => cacheMut_RLock;; mret at_first_load
  | at_first_load => c ← load_schema id; mret (at_first_RUnlock c)
  | at_first_RUnlock c => cacheMut_RUnlock;; mret (at_first_check c)
  | at_first_check (Some c) =>
    store_lastUsed id (time_Unix now);; mret (returned (decoder c, None))
  | at_first_check None => requestMut_Lock;; mret at_second_RLock
  | at_second_RLock => cacheMut_RLock;; mret at_second_load
  | at_second_load => c ← load_schema id; mret (at_second_RUnlock c)
  | at_second_RUnlock c => cacheMut_RUnlock;; mret (at_second_check c)
  | at_second_check (Some c) =>
    store_lastUsed id (time_Unix now);;
    mret (at_deferred_Unlock (decoder c, None))
  | at_second_check None =>
    '(resPayload, err) ← client_GetSchemaByID id;
    match err with
    | Some e => mret (at_deferred_Unlock (None, Some e))
    | None => mret (at_build resPayload)
    end
  | at_build resPayload =>
    '(decoder, err) ← build_decoder resPayload;
    match err with
    | Some e => mret (at_deferred_Unlock (None, Some e))
    | None => mret (at_Lock decoder)
    end
  | at_Lock d => cacheMut_Lock;; mret (at_store d)
  | at_store d =>
    store_schema id (mkCached (time_Unix now) d);; mret (at_Unlock d)
  | at_Unlock d => cacheMut_Unlock;; mret (at_deferred_Unlock (d, None))
  | at_deferred_Unlock r => requestMut_Unlock;; mret (returned r)
  | returned _ => lift Blocked
  end.

(** A goroutine run on its own until it returns. *)
Fixpoint run_thread (fuel : nat) (now : Time) (id : Z) (t : thread)
    : Run (schemaDecoder * option error) :=
  match t with
  | returned r => mret r
  | _ =>
    match fuel with
    | O => lift Blocked
    | S fuel => t' ← thread_step now id t; run_thread fuel now id t'
    end
  end.

(** The processor and the goroutines that are inside [getDecoder], each with
    the identifier it was called with. *)
Record pool : Type := mkPool { shared : State; threads : list (Z * thread) }.

(** The scheduler picks a goroutine whose next step is enabled and runs that
    step. *)
Inductive pool_step : pool → pool → Prop :=
  | pool_step_thread (p : pool) (i : nat) (now : Time) (id : Z) (t t' : thread)
      (s' : State) :
      threads p !! i = Some (id, t) →
      thread_step now id t (shared p) = Return (t', s') →
      pool_step p (mkPool s' (<[i:=(id, t')]> (threads p))).

(** A schedule run as a function: each item names the goroutine to run and
    the clock reading; a step that is not enabled stops the run. *)
Fixpoint run_schedule (schedule : list (nat * Time)) (p : pool) : option pool :=
  match schedule with
  | [] => Some p
  | (i, now) :: rest =>
    match threads p !! i with
    | None => None
    | Some (id, t) =>
      match thread_step now id t (shared p) with
      | Return (t', s') => run_schedule rest (mkPool s' (<[i:=(id, t')]> (threads p)))
      | _ => None
      end
    end
  end.

(** The callers, all about to enter [getDecoder]. *)
Definition enter (callers : list Z) : list (Z * thread) :=
  (λ id, (id, at_first_RLock)) <$> callers.

(** The goroutines that hold [requestMut], that hold [cacheMut] for reading
    and that hold it for writing. *)
Definition holds_requestMut (t : thread) : bool :=
  match t with
  | at_first_RLock | at_first_load | at_first_RUnlock _ | at_first_check _
  | returned _ => false
  | _ => true
  end.

Definition holds_read (t : thread) : bool :=
  match t with
  | at_first_load | at_first_RUnlock _ | at_second_load | at_second_RUnlock _ => true
  | _ => false
  end.

Definition holds_write (t : thread) : bool :=
  match t with
  | at_store _ | at_Unlock _ => true
  | _ => false
  end.

Definition is_returned (t : thread) : bool :=
  match t with returned _ => true | _ => false end.

(** The number of fetches of [id] made so far. *)
Definition is_fetch_of (id : Z) (c : call) : bool :=
  match c with
  | call_GetSchemaByID k => bool_decide (k = id)
  | _ => false
  end.

Definition fetches (id : Z) (s : State) : nat :=
  length (filter (λ c, is_fetch_of id c) (calls s)).

(** ** Notions used to state the properties *)

(** No goroutine holds a lock of the processor. *)
Definition idle (s : State) : Prop :=
  cacheMut s = mkRWMutex 0 false ∧ requestMut s = false.

(** Resolution of [id] against the registry in state [reg] fails with [e]:
    the fetch returns an error, or the builder chosen by the type tag returns
    an error, or the type tag has no builder. *)
Inductive resolution_fails (id : Z) (reg : Registry) : error → Prop :=
  | fetch_fails info e reg1 :
      GetSchemaByID id reg = ((info, Some e), reg1) →
      resolution_fails id reg e
  | protobuf_build_fails info reg1 d e reg2 :
      GetSchemaByID id reg = ((info, None), reg1) →
      info_Type info = "PROTOBUF" →
      getProtobufDecoder info reg1 = ((d, Some e), reg2) →
      resolution_fails id reg e
  | avro_build_fails info reg1 d e reg2 :
      GetSchemaByID id reg = ((info, None), reg1) →
      info_Type info = "" ∨ info_Type info = "AVRO" →
      getAvroDecoder info reg1 = ((d, Some e), reg2) →
      resolution_fails id reg e
  | schema_type_unsupported info reg1 :
      GetSchemaByID id reg = ((info, None), reg1) →
      info_Type info ≠ "PROTOBUF" →
      info_Type info ≠ "" →
      info_Type info ≠ "AVRO" →
      resolution_fails id reg (err_schema_type (info_Type info)).

(** The processor after a fetch of [id]: the call is on record and the
    client has moved to [reg]. *)
Definition fetched (id : Z) (reg : Registry) (s : State) : State :=
  mkDecoder reg (schemas s) (cacheMut s) (requestMut s) (shutSig s)
            (call_GetSchemaByID id :: calls s).

(** What a miss on [id] comes to once the builder called as [c] has answered
    [res]: an error is returned and nothing is stored, or the decoder is
    stored under [id] with the clock reading and returned. *)
Definition built (now : Time) (id : Z) (s : State) (c : call)
    (res : (schemaDecoder * option error) * Registry)
    : (schemaDecoder * option error) * State :=
  let '((d, err), reg) := res in
  let cs := c :: call_GetSchemaByID id :: calls s in
  match err with
  | Some e =>
    ((None, Some e),
     mkDecoder reg (schemas s) (cacheMut s) (requestMut s) (shutSig s) cs)
  | None =>
    ((d, None),
     mkDecoder reg (<[id := mkCached (time_Unix now) d]> (schemas s))
               (cacheMut s) (requestMut s) (shutSig s) cs)
  end.

(** An entry is stale at [targetTime]: it is there and its time stamp is
    before [targetTime]. *)
Definition stale (targetTime : Z) (c : option cachedSchemaDecoder) : Prop :=
  match c with
  | Some v => lastUsedUnixSeconds v < targetTime
  | None => False
  end.

#[global] Instance stale_dec targetTime c : Decision (stale targetTime c).
Proof. destruct c; simpl; apply _. Defined.

(** [cacheMut] is held by nobody. *)
Definition cache_unlocked (s : State) : Prop := cacheMut s = mkRWMutex 0 false.

(** The number of goroutines of the pool in the states that [f] picks. *)
Definition tally (f : thread → bool) (ts : list (Z * thread)) : nat :=
  length (filter (λ it, f it.2) ts).

(** Steps a goroutine has left at most before it returns. *)
Definition remaining_steps (t : thread) : nat :=
  match t with
  | at_first_RLock => 13
  | at_first_load => 12
  | at_first_RUnlock _ => 11
  | at_first_check _ => 10
  | at_second_RLock => 9
  | at_second_load => 8
  | at_second_RUnlock _ => 7
  | at_second_check _ => 6
  | at_build _ => 5
  | at_Lock _ => 4
  | at_store _ => 3
  | at_Unlock _ => 2
  | at_deferred_Unlock _ => 1
  | returned _ => 0
  end.

Definition total_steps (ts : list (Z * thread)) : nat :=
  sum_list (map (λ it, remaining_steps it.2) ts).

(** The builder that the type tag of [info] selects always yields a decoder
    that is not [nil]. *)
Definition builds (info : SchemaInfo) : Prop :=
  (info_Type info = "PROTOBUF"
   ∧ ∀ reg, ∃ f reg', getProtobufDecoder info reg = ((Some f, None), reg'))
  ∨ ((info_Type info = "" ∨ info_Type info = "AVRO")
     ∧ ∀ reg, ∃ f reg', getAvroDecoder info reg = ((Some f, None), reg')).

(** The registry serves [id]: a fetch of it succeeds whenever it is made,
    with a schema from which a decoder can be built. *)
Definition resolves (id : Z) : Prop :=
  ∀ reg, ∃ info reg1, GetSchemaByID id reg = ((info, None), reg1) ∧ builds info.

(** The locks record who is inside: the readers of [cacheMut] are the
    goroutines between an [RLock] and its [RUnlock], its writer is the one
    between [Lock] and [Unlock], and [requestMut] is held by the one between
    [requestMut.Lock] and the deferred [Unlock]. *)
Record locks_agree (s : State) (ts : list (Z * thread)) : Prop := mkLocksAgree {
  agree_readers : readers (cacheMut s) = tally holds_read ts;
  agree_writer : tally holds_write ts = if writer (cacheMut s) then 1%nat else 0%nat;
  agree_request : tally holds_requestMut ts = if requestMut s then 1%nat else 0%nat
}.

(** Before any fetch: nobody has seen an entry. *)
Definition before_fetch (t : thread) : Prop :=
  match t with
  | at_first_RLock | at_first_load | at_second_RLock | at_second_load => True
  | at_first_RUnlock c | at_first_check c
  | at_second_RUnlock c | at_second_check c => c = None
  | _ => False
  end.

(** Between the fetch and the insertion: one goroutine builds, the others
    are still before [requestMut.Lock] and have seen no entry. *)
Definition during_build (t : thread) : Prop :=
  match t with
  | at_build info => builds info
  | at_Lock d | at_store d => is_Some d
  | at_first_RLock | at_first_load => True
  | at_first_RUnlock c | at_first_check c => c = None
  | _ => False
  end.

(** After the insertion of a decoder [f]: whoever has seen an entry has seen
    [f], and whoever checked again under [requestMut] has seen an entry. *)
Definition after_store (f : Message → Message * option error) (t : thread) : Prop :=
  match t with
  | at_first_RLock | at_first_load | at_second_RLock | at_second_load => True
  | at_first_RUnlock c | at_first_check c =>
    c = None ∨ ∃ c', c = Some c' ∧ decoder c' = Some f
  | at_second_RUnlock c | at_second_check c => ∃ c', c = Some c' ∧ decoder c' = Some f
  | at_Unlock d => d = Some f
  | at_deferred_Unlock r | returned r => r = (Some f, None)
  | _ => False
  end.

(** The goroutine that has fetched and has not stored yet. *)
Definition building (t : thread) : Prop :=
  match t with
  | at_build _ | at_Lock _ | at_store _ => True
  | _ => False
  end.

(** [P] holds of the callers of [getDecoder id]; the callers for other
    identifiers are free. *)
Definition callers_of (id : Z) (P : thread → Prop) (ts : list (Z * thread)) : Prop :=
  Forall (λ it, it.1 = id → P it.2) ts.

(** The three phases of a pool, seen from the callers of [getDecoder id], on
    a cache that had no entry for [id] and [n0] fetches of it on record. *)
Definition phase (id : Z) (n0 : nat) (p : pool) : Prop :=
  (schemas (shared p) !! id = None ∧ fetches id (shared p) = n0
   ∧ callers_of id before_fetch (threads p))
  ∨ (schemas (shared p) !! id = None ∧ fetches id (shared p) = S n0
     ∧ (∃ i t, threads p !! i = Some (id, t) ∧ building t)
     ∧ callers_of id during_build (threads p))
  ∨ (∃ f, (∃ c, schemas (shared p) !! id = Some c ∧ decoder c = Some f)
          ∧ fetches id (shared p) = S n0
          ∧ callers_of id (after_store f) (threads p)).

(** A truth value as a count. *)
Definition b2n (b : bool) : nat := if b then 1%nat else 0%nat.

(** The next step of the goroutine does not wait: the lock it asks for is
    free, and the lock it releases is held. *)
Definition enabled (s : State) (t : thread) : Prop :=
  match t with
  | at_first_RLock | at_second_RLock => writer (cacheMut s) = false
  | at_first_RUnlock _ | at_second_RUnlock _ => readers (cacheMut s) ≠ 0%nat
  | at_first_check None => requestMut s = false
  | at_Lock _ => cacheMut s = mkRWMutex 0 false
  | at_Unlock _ => writer (cacheMut s) = true
  | at_deferred_Unlock _ => requestMut s = true
  | returned _ => False
  | _ => True
  end.

End Processor.

(** ** A registry stub *)

(** A registry that serves an Avro schema under identifier 7 and a schema of
    a type without a builder under 8, and knows no other identifier; its
    state counts the fetches served. The Avro builder yields a decoder that
    fails on an empty payload and otherwise sets the decoded document; the
    Protobuf builder fails. *)
Module Stub.

Definition int_schema : SchemaInfo := mkSchemaInfo "AVRO" "int" [].

Definition GetSchemaByID (id : Z) (served : nat) : (SchemaInfo * option error) * nat :=
  if decide (id = 7) then ((int_schema, None), S served)
  else if decide (id = 8) then ((mkSchemaInfo "JSON" "{}" [], None), S served)
  else ((mkSchemaInfo "" "" [], Some "schema not found"%string), S served).

Definition decode (m : Message) : Message * option error :=
  if decide (len (AsBytes m).1 = 0%nat) then (m, Some "short buffer"%string)
  else (mkMessage (msg_as_bytes m) (Some "42"%string), None).

Definition getAvroDecoder (info : SchemaInfo) (served : nat)
    : (schemaDecoder * option error) * nat :=
  ((Some decode, None), served).

Definition getProtobufDecoder (info : SchemaInfo) (served : nat)
    : (schemaDecoder * option error) * nat :=
  ((None, Some "unable to parse schema"%string), served).

(** An idle processor with the given cache. *)
Definition processor (entries : gmap Z cachedSchemaDecoder) : schemaRegistryDecoder nat :=
  mkDecoder 0%nat entries (mkRWMutex 0 false) false false [].

Definition message (bytes : list byte) : Message :=
  mkMessage (mkSlice bytes [], None) None.

(** Three entries: two last used at second 100, one at second 5000. *)
Definition three_entries : gmap Z cachedSchemaDecoder :=
  <[1 := mkCached 100 (Some decode)]>
    (<[2 := mkCached 100 (Some decode)]>
       (<[3 := mkCached 5000 (Some decode)]> ∅)).

(** Second 2000 on the clock. *)
Definition at_second_2000 : Time := 2000 * time_Second.

(** Two callers for identifier 7 and one for the unknown identifier 9. The
    two miss together; the first one fetches, builds and stores; the caller
    for 9 then gets its error from the registry; the second caller for 7 finds
    the entry when it checks again. *)
Definition callers : list Z := [7; 7; 9].

Definition schedule : list (nat * Time) :=
  (λ i, (i, at_second_2000)) <$>
    [0; 1; 2; 0; 1; 2; 0; 1; 2; 0; 0; 0; 0; 0; 0; 0; 0; 0; 0;
     2; 2; 2; 2; 2; 2; 1; 1; 1; 1; 1; 1]%nat.

End Stub.

(** ** Notions used to state further properties *)

Section Calls.

Context {Registry : Type}.
Context (GetSchemaByID : Z → Registry → (SchemaInfo * option error) * Registry).
Context (getProtobufDecoder getAvroDecoder :
  SchemaInfo → Registry → (schemaDecoder * option error) * Registry).

#[local] Abbreviation State := (schemaRegistryDecoder Registry).

(** One call on the processor that has run to its return, with nothing else
    running meanwhile: a [Process] of the host pipeline, a [clearExpired] of
    the purge loop, a [Close]. The maps are visited in any order the language
    allows. *)
Inductive call_step : State → State → Prop :=
  | call_Process (now : Time) (msg : Message) (s s' : State) r :
      Process GetSchemaByID getProtobufDecoder getAvroDecoder now msg s = Return (r, s') →
      call_step s s'
  | call_clearExpired (now : Time) (order : list Z) (s s' : State) :
      visits order (schemas s) →
      clearExpired now order (mret ()) s = Return ((), s') →
      call_step s s'
  | call_Close (ctx_Err : option error) (order : list Z) (s s' : State) r :
      visits order (schemas s) →
      Close ctx_Err order s = Return (r, s') →
      call_step s s'.

(** A caller that finds its identifier cached with the decoder [d]: it takes
    the read lock, loads the entry, and returns [d]. *)
Definition hit_path (d : schemaDecoder) (t : thread) : Prop :=
  match t with
  | at_first_RLock | at_first_load => True
  | at_first_RUnlock c | at_first_check c => ∃ c', c = Some c' ∧ decoder c' = d
  | returned r => r = (d, None)
  | _ => False
  end.

End Calls.

(** * Properties *)

(** ** Bytes and big-endian words *)

Lemma byte_unsigned_range (x : byte) : 0 ≤ byte_unsigned x < 256.
Proof.
  unfold byte_unsigned. pose proof (Byte.to_N_bounded x). lia.
Qed.

Lemma byte_unsigned_zero (x : byte) : byte_unsigned x = 0 ↔ x = x00.
Proof.
  split; [|intros ->; reflexivity].
  intros H. unfold byte_unsigned in H.
  assert (Hn : Byte.to_N x = Byte.to_N x00) by (change (Byte.to_N x00) with 0%N; lia).
  apply (f_equal Byte.of_N) in Hn. rewrite !Byte.of_to_N in Hn. congruence.
Qed.

Lemma byte_of_Z_unsigned (v : Z) : byte_unsigned (byte_of_Z v) = v mod 256.
Proof.
  unfold byte_of_Z, byte_unsigned.
  assert (Hr : 0 ≤ v mod 256 < 256) by (apply Z.mod_pos_bound; lia).
  destruct (Byte.of_N (Z.to_N (v mod 256))) as [y|] eqn:E; simpl.
  - apply Byte.to_of_N in E. rewrite E. lia.
  - apply Byte.of_N_None_iff in E. lia.
Qed.

Lemma byte_of_Z_eq (v : Z) (x : byte) : v mod 256 = byte_unsigned x → byte_of_Z v = x.
Proof.
  intros H. unfold byte_of_Z, byte_unsigned in *. rewrite H.
  rewrite N2Z.id, Byte.of_to_N. reflexivity.
Qed.

(** Below [2 ^ n] the bits of [lo] and of [hi] shifted by [n] do not meet. *)
Lemma lor_shiftl_add (lo hi n : Z) :
  0 ≤ n → 0 ≤ lo < 2 ^ n → Z.lor lo (Z.shiftl hi n) = lo + hi * 2 ^ n.
Proof.
  intros Hn Hlo.
  assert (Hland : Z.land lo (Z.shiftl hi n) = 0).
  { apply Z.bits_inj'. intros m Hm.
    rewrite Z.land_spec, Z.bits_0.
    destruct (decide (m < n)) as [Hlt|Hge].
    - rewrite Z.shiftl_spec_low by lia. apply andb_false_r.
    - rewrite <- (Z.mod_small lo (2 ^ n)) by lia.
      rewrite Z.mod_pow2_bits_high by lia. reflexivity. }
  rewrite <- Z.lxor_lor by exact Hland.
  rewrite <- Z.add_nocarry_lxor by exact Hland.
  rewrite Z.shiftl_mul_pow2 by lia. reflexivity.
Qed.

Lemma envelope_id_range (l : list byte) : 0 ≤ envelope_id l < 2 ^ 32.
Proof.
  unfold envelope_id.
  pose proof (byte_unsigned_range (nth 1 l x00)).
  pose proof (byte_unsigned_range (nth 2 l x00)).
  pose proof (byte_unsigned_range (nth 3 l x00)).
  pose proof (byte_unsigned_range (nth 4 l x00)).
  lia.
Qed.

Lemma BigEndian_Uint32_value (b0 b1 b2 b3 : byte) (sp : list byte) :
  BigEndian_Uint32 (mkSlice [b0; b1; b2; b3] sp) =
  Return (byte_unsigned b0 * 2 ^ 24 + byte_unsigned b1 * 2 ^ 16 +
          byte_unsigned b2 * 2 ^ 8 + byte_unsigned b3).
Proof.
  unfold BigEndian_Uint32, index; simpl. unfold mret, outcome_ret. f_equal.
  pose proof (byte_unsigned_range b0). pose proof (byte_unsigned_range b1).
  pose proof (byte_unsigned_range b2). pose proof (byte_unsigned_range b3).
  rewrite (lor_shiftl_add _ _ 8) by lia.
  rewrite (lor_shiftl_add _ _ 16) by lia.
  rewrite (lor_shiftl_add _ _ 24) by lia.
  lia.
Qed.

Lemma int_wrap_uint32 (u : Z) : 0 ≤ u < 2 ^ 32 → int_wrap u = u.
Proof.
  intros H. unfold int_wrap. rewrite Z.mod_small by lia. lia.
Qed.

Lemma envelope_id_encode (id : Z) (payload : list byte) :
  0 ≤ id < 2 ^ 32 → envelope_id (encode_envelope id payload) = id.
Proof.
  intros H. unfold envelope_id, encode_envelope, BigEndian_PutUint32; simpl nth.
  rewrite !byte_of_Z_unsigned, !Z.shiftr_div_pow2 by lia.
  change (2 ^ 24) with 16777216. change (2 ^ 16) with 65536.
  change (2 ^ 8) with 256. change (2 ^ 32) with 4294967296 in H.
  Z.div_mod_to_equations. lia.
Qed.

Lemma encode_envelope_id (b1 b2 b3 b4 : byte) (rest : list byte) :
  encode_envelope (envelope_id (x00 :: b1 :: b2 :: b3 :: b4 :: rest)) rest =
  x00 :: b1 :: b2 :: b3 :: b4 :: rest.
Proof.
  unfold envelope_id, encode_envelope, BigEndian_PutUint32; simpl nth.
  pose proof (byte_unsigned_range b1). pose proof (byte_unsigned_range b2).
  pose proof (byte_unsigned_range b3). pose proof (byte_unsigned_range b4).
  simpl. f_equal.
  f_equal; [|f_equal; [|f_equal; [|f_equal]]];
    apply byte_of_Z_eq; rewrite ?Z.shiftr_div_pow2 by lia;
    change (2 ^ 24) with 16777216; change (2 ^ 16) with 65536;
    change (2 ^ 8) with 256; Z.div_mod_to_equations; lia.
Qed.

(** A list of at least five bytes, taken apart. *)
Lemma five_bytes (l : list byte) :
  (5 ≤ length l)%nat →
  ∃ b0 b1 b2 b3 b4, l = b0 :: b1 :: b2 :: b3 :: b4 :: drop 5 l.
Proof.
  intros H.
  destruct l as [|b0 [|b1 [|b2 [|b3 [|b4 rest]]]]]; simpl in H; try lia.
  by exists b0, b1, b2, b3, b4.
Qed.

(** ** Identifier codec *)

Lemma extractID_five (b1 b2 b3 b4 : byte) (rest sp : list byte) :
  extractID (mkSlice (x00 :: b1 :: b2 :: b3 :: b4 :: rest) sp) =
  Return (envelope_id (x00 :: b1 :: b2 :: b3 :: b4 :: rest), mkSlice rest sp, None).
Proof.
  unfold extractID.
  rewrite decide_False by (unfold len; simpl; lia).
  change (index _ 0) with (Return x00). unfold mbind at 1, outcome_bind at 1.
  rewrite decide_False by (intros H; apply H; reflexivity).
  unfold slice_low_high.
  rewrite decide_False by (unfold cap; simpl; lia).
  rewrite decide_False by lia.
  cbv zeta. unfold mbind at 1, outcome_bind at 1.
  change (take (5 - 1) (drop 1 (elems (mkSlice (x00 :: b1 :: b2 :: b3 :: b4 :: rest) sp)
                                  ++ spare (mkSlice (x00 :: b1 :: b2 :: b3 :: b4 :: rest) sp))))
    with [b1; b2; b3; b4].
  rewrite BigEndian_Uint32_value.
  unfold mbind at 1, outcome_bind at 1.
  unfold slice_low. rewrite decide_False by (unfold len; simpl; lia).
  unfold mbind, outcome_bind, mret, outcome_ret.
  rewrite int_wrap_uint32.
  - reflexivity.
  - pose proof (envelope_id_range (x00 :: b1 :: b2 :: b3 :: b4 :: rest)) as Hr.
    unfold envelope_id in Hr. simpl nth in Hr. exact Hr.
Qed.

Lemma extractID_long (b : slice) :
  (5 ≤ len b)%nat →
  elems b !! 0%nat = Some x00 →
  extractID b =
    Return (envelope_id (elems b), mkSlice (drop 5 (elems b)) (spare b), None)
  ∧ elems b = encode_envelope (envelope_id (elems b)) (drop 5 (elems b)).
Proof.
  destruct b as [l sp]. unfold len. simpl elems. simpl spare.
  intros Hlen H0.
  destruct (five_bytes l Hlen) as (b0 & b1 & b2 & b3 & b4 & Hl).
  rewrite Hl in H0. simpl in H0. injection H0 as ->.
  set (rest := drop 5 l) in *. rewrite Hl. clearbody rest. clear Hl Hlen.
  split.
  - apply extractID_five.
  - symmetry. apply encode_envelope_id.
Qed.

Lemma extractID_empty (b : slice) :
  len b = 0%nat → extractID b = Return (0, nil_slice, Some err_empty).
Proof. intros H. unfold extractID. by rewrite decide_True. Qed.

Lemma extractID_version (b : slice) (x : byte) :
  elems b !! 0%nat = Some x → x ≠ x00 →
  extractID b = Return (0, nil_slice, Some (err_version x)).
Proof.
  intros Hx Hne. unfold extractID.
  rewrite decide_False.
  2:{ unfold len. destruct (elems b); [discriminate|simpl; lia]. }
  unfold index. rewrite Hx. unfold mbind, outcome_bind.
  rewrite decide_True; [reflexivity|].
  intros Hz. by apply byte_unsigned_zero in Hz.
Qed.

Lemma BigEndian_Uint32_returns (s : slice) :
  (4 ≤ len s)%nat → ∃ u, BigEndian_Uint32 s = Return u.
Proof.
  destruct s as [l sp]. unfold len. simpl. intros H.
  destruct l as [|b0 [|b1 [|b2 [|b3 rest]]]]; simpl in H; try lia.
  eexists. reflexivity.
Qed.

(** On an input of one to four bytes that starts with 0 the code reaches the
    two slice expressions and one of them is out of range. *)
Lemma extractID_short_panics (b : slice) :
  (1 ≤ len b ≤ 4)%nat →
  elems b !! 0%nat = Some x00 →
  extractID b =
    Panic (if decide (cap b < 5)%nat
           then slice_bounds_out_of_range_cap 5 (cap b)
           else slice_bounds_out_of_range_low 5 (len b)).
Proof.
  intros Hlen H0. unfold extractID.
  rewrite decide_False by lia.
  unfold index. rewrite H0. unfold mbind at 1, outcome_bind at 1.
  rewrite decide_False by (intros H; apply H; reflexivity).
  unfold slice_low_high.
  destruct (decide (cap b < 5)%nat) as [Hcap|Hcap]; [reflexivity|].
  rewrite decide_False by lia. cbv zeta.
  unfold mbind at 1, outcome_bind at 1.
  destruct (BigEndian_Uint32_returns
    (mkSlice (take (5 - 1) (drop 1 (elems b ++ spare b))) (drop 5 (elems b ++ spare b))))
    as [u Hu].
  { unfold len. simpl. rewrite length_take, length_drop, length_app.
    unfold cap in Hcap. lia. }
  rewrite Hu. unfold mbind at 1, outcome_bind at 1.
  unfold slice_low. rewrite decide_True by lia. reflexivity.
Qed.

(** Every input falls in one of four classes. *)
Lemma input_cases (b : slice) :
  len b = 0%nat
  ∨ (∃ x, elems b !! 0%nat = Some x ∧ x ≠ x00)
  ∨ ((1 ≤ len b ≤ 4)%nat ∧ elems b !! 0%nat = Some x00)
  ∨ ((5 ≤ len b)%nat ∧ elems b !! 0%nat = Some x00).
Proof.
  unfold len. destruct (elems b) as [|x rest] eqn:E; [by left|]. right.
  destruct (decide (byte_unsigned x = 0)) as [Hz|Hz].
  - apply byte_unsigned_zero in Hz as ->. right.
    destruct (decide (5 ≤ length (x00 :: rest))%nat); [right|left];
      (split; [simpl in *; lia|reflexivity]).
  - left. exists x. split; [reflexivity|]. intros ->. by apply Hz.
Qed.

Example extractID_7 :
  extractID (mkSlice [x00; x00; x00; x00; x07; x54] []) =
  Return (7, mkSlice [x54] [], None).
Proof. reflexivity. Qed.

Example extractID_version_1 :
  extractID (mkSlice [x01; x00; x00; x00; x07] []) =
  Return (0, nil_slice,
          Some "serialization format version number 1 not supported"%string).
Proof. vm_compute. reflexivity. Qed.

Example extractID_short :
  extractID (mkSlice [x00; x01; x02] []) =
  Panic (slice_bounds_out_of_range_cap 5 3).
Proof. reflexivity. Qed.

Example extractID_short_with_capacity :
  extractID (mkSlice [x00; x01; x02] [x03; x04; x05]) =
  Panic (slice_bounds_out_of_range_low 5 3).
Proof. reflexivity. Qed.

(** C1. On every input of at least five bytes whose first byte is 0,
    [extractID] succeeds; the identifier it returns is the big-endian
    unsigned 32-bit number held in bytes 1 to 4 and the remainder is bytes 5
    to the end, unchanged. The input is the synthetic encoding of that pair,
    and if it was encoded from [id] and [payload], these are what comes
    back. *)
Theorem extractID_envelope (b : slice) :
  (5 ≤ len b)%nat →
  elems b !! 0%nat = Some x00 →
  extractID b =
    Return (envelope_id (elems b), mkSlice (drop 5 (elems b)) (spare b), None)
  ∧ elems b = encode_envelope (envelope_id (elems b)) (drop 5 (elems b))
  ∧ ∀ id payload,
      0 ≤ id < 2 ^ 32 →
      elems b = encode_envelope id payload →
      envelope_id (elems b) = id ∧ drop 5 (elems b) = payload.
Proof.
  intros Hlen H0.
  destruct (extractID_long b Hlen H0) as [Hrun Henc].
  split; [exact Hrun|split; [exact Henc|]].
  intros id payload Hid Hb. rewrite Hb. split.
  - by apply envelope_id_encode.
  - reflexivity.
Qed.

Lemma extractID_envelope_witness :
  extractID (mkSlice [x00; x00; x00; x01; x02; x2a] [x00]) =
  Return (258, mkSlice [x2a] [x00], None).
Proof.
  pose proof (extractID_envelope (mkSlice [x00; x00; x00; x01; x02; x2a] [x00])) as H.
  destruct H as [H _].
  - unfold len. simpl. lia.
  - reflexivity.
  - exact H.
Defined.

(** C4. On an empty input [extractID] returns the error "message is empty";
    on an input whose first byte is not 0 it returns the error that names the
    unsupported version. In both cases the identifier and the remainder keep
    their zero values. *)
Theorem extractID_rejects (b : slice) :
  (len b = 0%nat → extractID b = Return (0, nil_slice, Some err_empty))
  ∧ (∀ x, elems b !! 0%nat = Some x → x ≠ x00 →
       extractID b = Return (0, nil_slice, Some (err_version x))).
Proof.
  split.
  - apply extractID_empty.
  - apply extractID_version.
Qed.

Lemma extractID_rejects_witness :
  extractID nil_slice = Return (0, nil_slice, Some "message is empty"%string)
  ∧ extractID (mkSlice [x01; x00; x00; x00; x07] []) =
    Return (0, nil_slice,
            Some "serialization format version number 1 not supported"%string).
Proof.
  split.
  - apply (proj1 (extractID_rejects nil_slice)). reflexivity.
  - apply (proj2 (extractID_rejects (mkSlice [x01; x00; x00; x00; x07] [])) x01).
    + reflexivity.
    + discriminate.
Defined.

(** C9, the statement that fails: a slice of three bytes with room for six.
    The first byte is 0 and the length is between 1 and 4, yet [b[1:5]] is
    within the capacity and is evaluated; the panic comes from [b[5:]]. *)
Lemma extractID_short_slice_within_capacity :
  let b := mkSlice [x00; x01; x02] [x03; x04; x05] in
  (1 ≤ len b ≤ 4)%nat
  ∧ elems b !! 0%nat = Some x00
  ∧ slice_low_high b 1 5 = Return (mkSlice [x01; x02; x03; x04] [x05])
  ∧ (¬ ∃ p, slice_low_high b 1 5 = Panic p)
  ∧ extractID b = Panic (slice_bounds_out_of_range_low 5 3).
Proof.
  cbv zeta. split; [|split; [|split; [|split]]].
  - unfold len. simpl. lia.
  - reflexivity.
  - reflexivity.
  - intros [p Hp]. discriminate Hp.
  - reflexivity.
Qed.

(** C9, amended. [extractID] returns exactly when the input is empty, or its
    first byte is not 0, or it has at least five bytes. Its only error
    results are those of the two checks. On an input of one to four bytes
    that starts with 0 it panics with a slice bound out of range: at
    [b[1:5]] when the capacity is below five, at [b[5:]] otherwise. With at
    least five bytes and a first byte 0 it returns without an error. *)
Theorem extractID_total_iff (b : slice) :
  ((∃ r, extractID b = Return r) ↔
     (len b = 0%nat ∨ (∃ x, elems b !! 0%nat = Some x ∧ x ≠ x00) ∨ (5 ≤ len b)%nat))
  ∧ ((1 ≤ len b ≤ 4)%nat → elems b !! 0%nat = Some x00 →
       extractID b =
         Panic (if decide (cap b < 5)%nat
                then slice_bounds_out_of_range_cap 5 (cap b)
                else slice_bounds_out_of_range_low 5 (len b)))
  ∧ (∀ id remaining e, extractID b = Return (id, remaining, Some e) →
       (len b = 0%nat ∧ e = err_empty)
       ∨ (∃ x, elems b !! 0%nat = Some x ∧ x ≠ x00 ∧ e = err_version x))
  ∧ ((5 ≤ len b)%nat → elems b !! 0%nat = Some x00 →
       ∃ id remaining, extractID b = Return (id, remaining, None)).
Proof.
  pose proof (input_cases b) as Hcases.
  split; [|split; [exact (extractID_short_panics b)|split]].
  - split.
    + intros [r Hr].
      destruct Hcases as [H|[H|[[H1 H2]|[H1 H2]]]];
        [by left|by right; left| |by right; right].
      rewrite (extractID_short_panics b H1 H2) in Hr. discriminate.
    + intros H.
      destruct Hcases as [H'|[(x & Hx & Hne)|[[H1 H2]|[H1 H2]]]].
      * eexists. by apply extractID_empty.
      * eexists. by apply (extractID_version b x).
      * exfalso. destruct H as [H|[(x & Hx & Hne)|H]]; [lia| |lia].
        rewrite H2 in Hx. by injection Hx as <-.
      * eexists. apply (proj1 (extractID_long b H1 H2)).
  - intros id remaining e Hr.
    destruct Hcases as [H|[(x & Hx & Hne)|[[H1 H2]|[H1 H2]]]].
    + left. split; [exact H|].
      rewrite (extractID_empty b H) in Hr. by injection Hr as _ _ <-.
    + right. exists x. split; [exact Hx|split; [exact Hne|]].
      rewrite (extractID_version b x Hx Hne) in Hr. by injection Hr as _ _ <-.
    + rewrite (extractID_short_panics b H1 H2) in Hr. discriminate.
    + rewrite (proj1 (extractID_long b H1 H2)) in Hr. discriminate.
  - intros H1 H2. eexists _, _. apply (proj1 (extractID_long b H1 H2)).
Qed.

Lemma extractID_total_iff_witness :
  extractID (mkSlice [x00; x01] []) = Panic (slice_bounds_out_of_range_cap 5 2)
  ∧ ∃ id remaining,
      extractID (mkSlice [x00; x00; x00; x00; x07] []) = Return (id, remaining, None).
Proof.
  split.
  - apply (proj1 (proj2 (extractID_total_iff (mkSlice [x00; x01] [])))).
    + unfold len. simpl. lia.
    + reflexivity.
  - apply (proj2 (proj2 (proj2
      (extractID_total_iff (mkSlice [x00; x00; x00; x00; x07] []))))).
    + unfold len. simpl. lia.
    + reflexivity.
Defined.

(** ** Decoder cache: lookups and misses *)

Ltac run_code :=
  unfold mbind, M_bind, mret, M_ret, lift,
    cacheMut_RLock, cacheMut_RUnlock, cacheMut_Lock, cacheMut_Unlock,
    requestMut_Lock, requestMut_Unlock, load_schema, store_lastUsed,
    store_schema, delete_schema, shutSig_CloseNow, client_GetSchemaByID, build,
    set_cacheMut, set_requestMut, set_schemas;
  simpl.

Ltac idle_state s :=
  match goal with
  | H : idle s |- _ =>
    let cl := fresh "cl" in let sch := fresh "sch" in
    let cm := fresh "cm" in let rm := fresh "rm" in
    let sig := fresh "sig" in let cs := fresh "cs" in
    destruct s as [cl sch cm rm sig cs]; destruct H as [? ?]; simpl in *; subst cm rm
  end.

Section ProcessorProperties.

Context {Registry : Type}.
Context (GetSchemaByID : Z → Registry → (SchemaInfo * option error) * Registry).
Context (getProtobufDecoder getAvroDecoder :
  SchemaInfo → Registry → (schemaDecoder * option error) * Registry).

#[local] Abbreviation State := (schemaRegistryDecoder Registry).
#[local] Abbreviation getDecoder' :=
  (getDecoder GetSchemaByID getProtobufDecoder getAvroDecoder).
#[local] Abbreviation Process' :=
  (Process GetSchemaByID getProtobufDecoder getAvroDecoder).

(** A hit refreshes the time stamp and returns the cached decoder. *)
Lemma getDecoder_hit (now : Time) (id : Z) (s : State) (c : cachedSchemaDecoder) :
  idle s → schemas s !! id = Some c →
  getDecoder' now id s =
  Return ((decoder c, None),
          set_schemas (alter (λ c, mkCached (time_Unix now) (decoder c)) id) s).
Proof.
  intros Hidle Hc. idle_state s.
  unfold getDecoder. run_code. rewrite Hc. reflexivity.
Qed.

(** A miss with a failing fetch. *)
Lemma getDecoder_fetch_error (now : Time) (id : Z) (s : State) info e reg1 :
  idle s → schemas s !! id = None →
  GetSchemaByID id (client s) = ((info, Some e), reg1) →
  getDecoder' now id s = Return ((None, Some e), fetched id reg1 s).
Proof.
  intros Hidle Hc Hf. idle_state s.
  unfold getDecoder, fetch_and_build. run_code. rewrite Hc. simpl.
  rewrite Hc. simpl. rewrite Hf. reflexivity.
Qed.

(** A miss with a successful fetch, up to the choice of the builder. *)
Lemma getDecoder_fetched (now : Time) (id : Z) (s : State) info reg1 :
  idle s → schemas s !! id = None →
  GetSchemaByID id (client s) = ((info, None), reg1) →
  getDecoder' now id s =
  Return
    (if decide (info_Type info = "PROTOBUF") then
       built now id s (call_getProtobufDecoder info) (getProtobufDecoder info reg1)
     else if decide (info_Type info = "" ∨ info_Type info = "AVRO") then
       built now id s (call_getAvroDecoder info) (getAvroDecoder info reg1)
     else
       ((None, Some (err_schema_type (info_Type info))), fetched id reg1 s)).
Proof.
  intros Hidle Hc Hf. idle_state s.
  unfold getDecoder, fetch_and_build, build_decoder, built, fetched. run_code.
  rewrite Hc. simpl. rewrite Hc. simpl. rewrite Hf.
  destruct (decide (info_Type info = "PROTOBUF")) as [Hp|Hp].
  - run_code. destruct (getProtobufDecoder info reg1) as [[d [e|]] reg2]; reflexivity.
  - destruct (decide (info_Type info = "" ∨ info_Type info = "AVRO")) as [Ha|Ha].
    + run_code. destruct (getAvroDecoder info reg1) as [[d [e|]] reg2]; reflexivity.
    + reflexivity.
Qed.

Lemma fetches_fetched (id : Z) (reg : Registry) (s : State) :
  fetches id (fetched id reg s) = S (fetches id s).
Proof.
  unfold fetches, fetched. simpl calls.
  rewrite filter_cons_True; [reflexivity|].
  simpl. by rewrite bool_decide_eq_true_2.
Qed.

Lemma fetches_built (now : Time) (id : Z) (s : State) (c : call) res :
  is_fetch_of id c = false →
  fetches id (built now id s c res).2 = S (fetches id s).
Proof.
  intros Hc. destruct res as [[d [e|]] reg]; unfold built, fetches; simpl calls;
    (rewrite filter_cons_False by (rewrite Hc; simpl; tauto));
    (rewrite filter_cons_True; [reflexivity|]);
    simpl; by rewrite bool_decide_eq_true_2.
Qed.

Lemma idle_fetched (id : Z) (reg : Registry) (s : State) :
  idle s → idle (fetched id reg s).
Proof. intros [? ?]. by split. Qed.

Lemma idle_built (now : Time) (id : Z) (s : State) (c : call) res :
  idle s → idle (built now id s c res).2.
Proof. intros [? ?]. destruct res as [[d [e|]] reg]; by split. Qed.

(** On a miss [getDecoder] returns, having fetched once, and leaves the
    locks free. *)
Lemma getDecoder_miss_fetches (now : Time) (id : Z) (s : State) :
  idle s → schemas s !! id = None →
  ∃ r s', getDecoder' now id s = Return (r, s')
          ∧ fetches id s' = S (fetches id s) ∧ idle s'.
Proof.
  intros Hidle Hc.
  destruct (GetSchemaByID id (client s)) as [[info [e|]] reg1] eqn:Hf.
  - eexists _, _. split; [by eapply getDecoder_fetch_error|].
    split; [apply fetches_fetched|by apply idle_fetched].
  - rewrite (getDecoder_fetched now id s info reg1 Hidle Hc Hf).
    repeat case_decide.
    + destruct (built _ _ _ _ _) as [r s'] eqn:Hb. eexists _, _.
      split; [reflexivity|].
      change s' with (r, s').2. rewrite <- Hb.
      split; [by apply fetches_built|by apply idle_built].
    + destruct (built _ _ _ _ _) as [r s'] eqn:Hb. eexists _, _.
      split; [reflexivity|].
      change s' with (r, s').2. rewrite <- Hb.
      split; [by apply fetches_built|by apply idle_built].
    + eexists _, _. split; [reflexivity|].
      split; [apply fetches_fetched|by apply idle_fetched].
Qed.

(** When resolution fails, [getDecoder] returns the error and the processor
    differs from the one before the call only in the client and the record
    of calls. *)
Lemma getDecoder_resolution_fails (now : Time) (id : Z) (s : State) (e : error) :
  idle s → schemas s !! id = None →
  resolution_fails GetSchemaByID getProtobufDecoder getAvroDecoder id (client s) e →
  ∃ s', getDecoder' now id s = Return ((None, Some e), s')
        ∧ schemas s' = schemas s ∧ idle s'
        ∧ fetches id s' = S (fetches id s).
Proof.
  intros Hidle Hc Hfail.
  destruct Hfail as [info e reg1 Hf|info reg1 d e reg2 Hf Ht Hb
                    |info reg1 d e reg2 Hf Ht Hb|info reg1 Hf Hp He Ha].
  - eexists. split; [by eapply getDecoder_fetch_error|].
    split; [reflexivity|]. split; [by apply idle_fetched|apply fetches_fetched].
  - rewrite (getDecoder_fetched now id s info reg1 Hidle Hc Hf).
    rewrite decide_True by exact Ht. unfold built. rewrite Hb.
    eexists. split; [reflexivity|]. split; [reflexivity|].
    split; [by destruct Hidle|].
    pose proof (fetches_built now id s (call_getProtobufDecoder info)
                  ((d, Some e), reg2) eq_refl) as Hn.
    exact Hn.
  - rewrite (getDecoder_fetched now id s info reg1 Hidle Hc Hf).
    rewrite decide_False by (destruct Ht as [Ht|Ht]; rewrite Ht; discriminate).
    rewrite decide_True by exact Ht. unfold built. rewrite Hb.
    eexists. split; [reflexivity|]. split; [reflexivity|].
    split; [by destruct Hidle|].
    pose proof (fetches_built now id s (call_getAvroDecoder info)
                  ((d, Some e), reg2) eq_refl) as Hn.
    exact Hn.
  - rewrite (getDecoder_fetched now id s info reg1 Hidle Hc Hf).
    rewrite decide_False by exact Hp.
    rewrite decide_False by (intros [?|?]; contradiction).
    eexists. split; [reflexivity|]. split; [reflexivity|].
    split; [by apply idle_fetched|apply fetches_fetched].
Qed.

(** C3. When resolution of an identifier that is not cached fails, because
    the fetch fails, the builder fails or the type tag has no builder,
    [getDecoder] returns that error and no decoder, the cache is exactly the
    one before the call, and the next call for the same identifier fetches
    again. *)
Theorem getDecoder_failure_not_cached (now : Time) (id : Z) (s : State) (e : error) :
  idle s →
  schemas s !! id = None →
  resolution_fails GetSchemaByID getProtobufDecoder getAvroDecoder id (client s) e →
  ∃ s', getDecoder' now id s = Return ((None, Some e), s')
        ∧ schemas s' = schemas s
        ∧ fetches id s' = S (fetches id s)
        ∧ ∀ now', ∃ r s'', getDecoder' now' id s' = Return (r, s'')
                           ∧ fetches id s'' = S (fetches id s').
Proof.
  intros Hidle Hc Hfail.
  destruct (getDecoder_resolution_fails now id s e Hidle Hc Hfail)
    as (s' & Hrun & Hsch & Hidle' & Hn).
  exists s'. split; [exact Hrun|]. split; [exact Hsch|]. split; [exact Hn|].
  intros now'.
  destruct (getDecoder_miss_fetches now' id s' Hidle') as (r & s'' & Hrun' & Hn' & _).
  { by rewrite Hsch. }
  by exists r, s''.
Qed.

(** C5. On a confirmed miss with a successful fetch the type tag alone picks
    the builder: the Avro builder for [""] and ["AVRO"], the Protobuf builder
    for ["PROTOBUF"]; the record of calls shows the builder that ran, and its
    decoder is cached unless it failed. For every other tag no builder runs,
    the error "schema type ... not supported" is returned and the cache is
    left as it was. *)
Theorem getDecoder_dispatch (now : Time) (id : Z) (s : State) info reg1 :
  idle s →
  schemas s !! id = None →
  GetSchemaByID id (client s) = ((info, None), reg1) →
  (info_Type info = "" ∨ info_Type info = "AVRO" →
     getDecoder' now id s =
     Return (built now id s (call_getAvroDecoder info) (getAvroDecoder info reg1)))
  ∧ (info_Type info = "PROTOBUF" →
     getDecoder' now id s =
     Return (built now id s (call_getProtobufDecoder info)
                   (getProtobufDecoder info reg1)))
  ∧ (info_Type info ≠ "" → info_Type info ≠ "AVRO" → info_Type info ≠ "PROTOBUF" →
     getDecoder' now id s =
     Return ((None, Some ("schema type " +:+ info_Type info +:+ " not supported")),
             fetched id reg1 s)
     ∧ schemas (fetched id reg1 s) = schemas s).
Proof.
  intros Hidle Hc Hf.
  rewrite (getDecoder_fetched now id s info reg1 Hidle Hc Hf).
  split; [|split].
  - intros Ht.
    rewrite decide_False by (destruct Ht as [Ht|Ht]; rewrite Ht; discriminate).
    by rewrite decide_True.
  - intros Ht. by rewrite decide_True.
  - intros He Ha Hp. rewrite decide_False by exact Hp.
    rewrite decide_False by (intros [?|?]; contradiction).
    split; reflexivity.
Qed.

(** ** Decode orchestrator *)

Lemma Process_extract_error (now : Time) (msg : Message) (s : State) b id remaining e :
  AsBytes msg = (b, None) →
  extractID b = Return (id, remaining, Some e) →
  Process' now msg s = Return ((msg, ([], Some e)), s).
Proof.
  intros Hb He. unfold Process. rewrite Hb. run_code. rewrite He. reflexivity.
Qed.

Lemma Process_getDecoder_error (now : Time) (msg : Message) (s s' : State)
    b id remaining d e :
  AsBytes msg = (b, None) →
  extractID b = Return (id, remaining, None) →
  getDecoder' now id s = Return ((d, Some e), s') →
  Process' now msg s = Return ((msg, ([], Some e)), s').
Proof.
  intros Hb He Hd. unfold Process. rewrite Hb.
  unfold mbind at 1, M_bind at 1, lift at 1. rewrite He.
  unfold mbind at 1, M_bind at 1. rewrite Hd. reflexivity.
Qed.

Lemma Process_decoder_called (now : Time) (msg : Message) (s s' : State)
    b id remaining f :
  AsBytes msg = (b, None) →
  extractID b = Return (id, remaining, None) →
  getDecoder' now id s = Return ((Some f, None), s') →
  Process' now msg s =
  Return (match f (SetBytes remaining msg) with
          | (msg', Some e) => (msg', ([], Some e))
          | (msg', None) => (msg', ([msg'], None))
          end, s').
Proof.
  intros Hb He Hd. unfold Process. rewrite Hb.
  unfold mbind at 1, M_bind at 1, lift at 1. rewrite He.
  unfold mbind at 1, M_bind at 1. rewrite Hd.
  unfold call_decoder. run_code.
  destruct (f (SetBytes remaining msg)) as [msg' [e|]]; reflexivity.
Qed.

Lemma extractID_remaining (b : slice) id remaining :
  extractID b = Return (id, remaining, None) →
  remaining = mkSlice (drop 5 (elems b)) (spare b).
Proof.
  intros Hr.
  destruct (input_cases b) as [H|[(x & Hx & Hne)|[[H1 H2]|[H1 H2]]]].
  - rewrite (extractID_empty b H) in Hr. discriminate.
  - rewrite (extractID_version b x Hx Hne) in Hr. discriminate.
  - rewrite (extractID_short_panics b H1 H2) in Hr. discriminate.
  - rewrite (proj1 (extractID_long b H1 H2)) in Hr. by injection Hr as _ <-.
Qed.

(** C7. For a message whose first byte is not 0, [Process] returns the
    unsupported-version error of [extractID] as it is, with no batch, and
    leaves the processor as it was: the record of calls is the same, so no
    call to the registry client was made. *)
Theorem Process_unsupported_version (now : Time) (msg : Message) (s : State) b x :
  AsBytes msg = (b, None) →
  elems b !! 0%nat = Some x →
  x ≠ x00 →
  extractID b = Return (0, nil_slice, Some (err_version x))
  ∧ ∃ s', Process' now msg s = Return ((msg, ([], Some (err_version x))), s')
          ∧ calls s' = calls s ∧ client s' = client s ∧ s' = s.
Proof.
  intros Hb Hx Hne.
  pose proof (extractID_version b x Hx Hne) as He.
  split; [exact He|]. exists s.
  split; [by eapply Process_extract_error|done].
Qed.

(** C10. [Process] touches the message only once extraction and resolution
    have both succeeded. If [extractID] or [getDecoder] returns an error,
    [Process] returns it and the message is as it was. If the resolved
    decoder fails, the message it was run on already had its bytes replaced
    by the remainder, the bytes after the five-byte prefix, and [Process]
    returns the decoder's error with the message as the decoder left it. *)
Theorem Process_mutation_order (now : Time) (msg : Message) (s : State) b :
  AsBytes msg = (b, None) →
  (∀ id remaining e,
     extractID b = Return (id, remaining, Some e) →
     Process' now msg s = Return ((msg, ([], Some e)), s))
  ∧ (∀ id remaining d e s',
     extractID b = Return (id, remaining, None) →
     getDecoder' now id s = Return ((d, Some e), s') →
     Process' now msg s = Return ((msg, ([], Some e)), s'))
  ∧ (∀ id remaining f s' msg' e,
     extractID b = Return (id, remaining, None) →
     getDecoder' now id s = Return ((Some f, None), s') →
     f (SetBytes remaining msg) = (msg', Some e) →
     Process' now msg s = Return ((msg', ([], Some e)), s')
     ∧ AsBytes (SetBytes remaining msg) = (remaining, None)
     ∧ elems remaining = drop 5 (elems b)).
Proof.
  intros Hb. split; [|split].
  - intros id remaining e He. by eapply Process_extract_error.
  - intros id remaining d e s' He Hd. by eapply Process_getDecoder_error.
  - intros id remaining f s' msg' e He Hd Hf.
    rewrite (Process_decoder_called now msg s s' b id remaining f Hb He Hd), Hf.
    split; [reflexivity|]. split; [reflexivity|].
    by rewrite (extractID_remaining b id remaining He).
Qed.

End ProcessorProperties.

(** ** Eviction *)

Section CacheProperties.

Context {Registry : Type}.

#[local] Abbreviation State := (schemaRegistryDecoder Registry).

Implicit Types (s : State) (m : gmap Z cachedSchemaDecoder).

Lemma visits_elem_of (order : list Z) m (k : Z) :
  visits order m → k ∈ order ↔ is_Some (m !! k).
Proof.
  unfold visits. intros ->. rewrite list_elem_of_fmap. split.
  - intros [[k' v] [-> Hin]]. apply elem_of_map_to_list in Hin. by exists v.
  - intros [v Hv]. exists (k, v). split; [done|]. by apply elem_of_map_to_list.
Qed.

Lemma visits_NoDup (order : list Z) m : visits order m → NoDup order.
Proof. unfold visits. intros ->. apply NoDup_fst_map_to_list. Qed.

(** The first pass gathers, in the order of the visit, the keys of the stale
    entries. *)
Lemma gather_targets_filter (targetTime : Z) m (order acc : list Z) :
  gather_targets targetTime (omap (λ k, (λ v, (k, v)) <$> m !! k) order) acc =
  acc ++ filter (λ k, stale targetTime (m !! k)) order.
Proof.
  revert acc. induction order as [|k rest IH]; intros acc; simpl.
  - by rewrite app_nil_r.
  - destruct (m !! k) as [v|] eqn:Hk; simpl.
    + rewrite IH. case_decide.
      * rewrite filter_cons_True by (rewrite Hk; done). by rewrite <- app_assoc.
      * rewrite filter_cons_False by (rewrite Hk; done). done.
    + rewrite IH. rewrite filter_cons_False by (rewrite Hk; simpl; tauto). done.
Qed.

(** The second pass, when every target is still in the map: it returns, and
    it has deleted the targets that are still stale and nothing else. *)
Lemma remove_stale_run (targetTime : Z) (targets : list Z) s :
  NoDup targets →
  (∀ k, k ∈ targets → is_Some (schemas s !! k)) →
  ∃ m', remove_stale targetTime targets s = Return ((), set_schemas (λ _, m') s)
        ∧ ∀ k, m' !! k =
               if decide (k ∈ targets ∧ stale targetTime (schemas s !! k))
               then None else schemas s !! k.
Proof.
  revert s. induction targets as [|k rest IH]; intros s Hnd Hin.
  - exists (schemas s). split.
    + destruct s. reflexivity.
    + intros k. rewrite decide_False; [done|]. intros [H _]. by apply elem_of_nil in H.
  - apply NoDup_cons in Hnd as [Hk Hnd].
    destruct (Hin k) as [c Hc]; [by left|].
    simpl. run_code. rewrite Hc.
    destruct (decide (lastUsedUnixSeconds c < targetTime)) as [Hst|Hst]; simpl.
    + destruct (IH (set_schemas (delete k) s) Hnd) as (m' & Hrun & Hm').
      { intros j Hj. simpl. rewrite lookup_delete_ne by (intros ->; done).
        apply Hin. by right. }
      exists m'. split.
      * unfold set_schemas in Hrun. simpl in Hrun. exact Hrun.
      * intros j. rewrite Hm'. simpl.
        destruct (decide (j = k)) as [->|Hne].
        -- rewrite lookup_delete_eq. rewrite Hc.
           rewrite decide_False by (intros [_ H]; exact H).
           rewrite decide_True; [done|]. split; [by left|exact Hst].
        -- rewrite lookup_delete_ne by done.
           destruct (decide (j ∈ rest ∧ stale targetTime (schemas s !! j))) as [[H1 H2]|H].
           ++ rewrite decide_True; [done|]. split; [by right|done].
           ++ rewrite decide_False; [done|]. intros [H1 H2]. apply H.
              split; [|done]. apply elem_of_cons in H1 as [?|?]; done.
    + destruct (IH s Hnd) as (m' & Hrun & Hm').
      { intros j Hj. apply Hin. by right. }
      exists m'. split.
      * exact Hrun.
      * intros j. rewrite Hm'.
        destruct (decide (j = k)) as [->|Hne].
        -- rewrite decide_False by (intros [H _]; done).
           rewrite decide_False; [done|]. intros [_ H]. rewrite Hc in H. done.
        -- destruct (decide (j ∈ rest ∧ stale targetTime (schemas s !! j))) as [[H1 H2]|H].
           ++ rewrite decide_True; [done|]. split; [by right|done].
           ++ rewrite decide_False; [done|]. intros [H1 H2]. apply H.
              split; [|done]. apply elem_of_cons in H1 as [?|?]; done.
Qed.

Lemma targetTime_of_Unix (now : Time) : targetTime_of now = time_Unix now - 600.
Proof.
  unfold targetTime_of, time_Unix, time_Add, schemaStaleAfter, time_Minute, time_Second.
  replace (now + - (60 * 1000000000 * 10)) with (now + (-600) * 1000000000) by lia.
  rewrite Z.div_add by lia. lia.
Qed.

(** [clearExpired] from the state [s] seen by the first pass to the state
    [s2] seen by the second pass. *)
Lemma clearExpired_run (now : Time) (order : list Z) (interleaved : M State ()) s s2 :
  cache_unlocked s →
  visits order (schemas s) →
  interleaved s = Return ((), s2) →
  cache_unlocked s2 →
  (∀ k, stale (targetTime_of now) (schemas s !! k) → is_Some (schemas s2 !! k)) →
  ∃ m', clearExpired now order interleaved s = Return ((), set_schemas (λ _, m') s2)
        ∧ ∀ k, m' !! k =
               if decide (stale (targetTime_of now) (schemas s !! k)
                          ∧ stale (targetTime_of now) (schemas s2 !! k))
               then None else schemas s2 !! k.
Proof.
  intros Hfree Hvis Hint Hfree2 Hpresent.
  set (tt := targetTime_of now) in *.
  set (targets := filter (λ k, stale tt (schemas s !! k)) order).
  assert (Htargets : ∀ k, k ∈ targets ↔ stale tt (schemas s !! k)).
  { intros k. unfold targets. rewrite list_elem_of_filter. split; [by intros [? ?]|].
    intros Hst. split; [done|]. apply (visits_elem_of order (schemas s) k Hvis).
    destruct (schemas s !! k); [by eexists|done]. }
  assert (Hnd : NoDup targets).
  { apply NoDup_filter. by eapply visits_NoDup. }
  assert (Hrun1 : clearExpired now order interleaved s =
    match decide (0 < length targets)%nat with
    | left _ => (cacheMut_Lock;; remove_stale tt targets;; cacheMut_Unlock) s2
    | right _ => Return ((), s2)
    end).
  { unfold clearExpired. fold tt. unfold range_schemas. unfold cache_unlocked in Hfree.
    destruct s as [cl sch cm rm sig cs]. simpl in *. subst cm.
    unfold mbind at 1, M_bind at 1, cacheMut_RLock at 1, set_cacheMut at 1. simpl.
    unfold mbind at 1, M_bind at 1.
    rewrite gather_targets_filter. simpl. fold targets.
    unfold mbind at 1, M_bind at 1, cacheMut_RUnlock at 1, set_cacheMut at 1. simpl.
    unfold mbind at 1, M_bind at 1. rewrite Hint.
    by destruct (decide (0 < length targets)%nat). }
  rewrite Hrun1. clear Hrun1.
  destruct (decide (0 < length targets)%nat) as [Hlen|Hlen].
  - destruct (remove_stale_run tt targets (set_cacheMut (mkRWMutex 0 true) s2) Hnd)
      as (m' & Hrun & Hm').
    { intros k Hk. simpl. apply Hpresent. by apply Htargets. }
    exists m'. split.
    + unfold cache_unlocked in Hfree2.
      destruct s2 as [cl2 sch2 cm2 rm2 sig2 cs2]. simpl in Hfree2. subst cm2.
      unfold mbind at 1, M_bind at 1. unfold cacheMut_Lock at 1. simpl.
      unfold mbind at 1, M_bind at 1. rewrite Hrun. reflexivity.
    + intros k. rewrite Hm'. simpl.
      destruct (decide (stale tt (schemas s !! k) ∧ stale tt (schemas s2 !! k))) as [[H1 H2]|H].
      * rewrite decide_True; [done|]. split; [by apply Htargets|done].
      * rewrite decide_False; [done|]. intros [H1 H2]. apply H. split; [by apply Htargets|done].
  - exists (schemas s2). split.
    + by destruct s2.
    + intros k. rewrite decide_False; [done|]. intros [H1 _].
      apply Htargets in H1. destruct targets; [by apply elem_of_nil in H1|simpl in Hlen; lia].
Qed.

(** X20. The race that the second pass guards against. [clearExpired] run
    from the cache [s] that its first pass scans to the cache [s2] that its
    second pass finds, provided every entry gathered by the first pass is
    still in the map at the second: it returns, and it has removed exactly
    the entries that were stale in the first pass and are still stale when
    checked again in the second; the threshold is ten minutes before the clock
    reading. An entry refreshed between the passes, to a clock reading not
    before that of the eviction, survives; an entry stale at both passes is
    removed; and when the time stamps have not moved backwards between the
    passes the removed entries are all the entries stale at the second pass.
    Without the proviso the re-check reads through [nil] and the second pass
    does not return. *)
Theorem clearExpired_removes_stale (now : Time) (order : list Z)
    (interleaved : M State ()) s s2 :
  cache_unlocked s →
  visits order (schemas s) →
  interleaved s = Return ((), s2) →
  cache_unlocked s2 →
  (∀ k, stale (targetTime_of now) (schemas s !! k) → is_Some (schemas s2 !! k)) →
  ∃ s3, clearExpired now order interleaved s = Return ((), s3)
    ∧ cache_unlocked s3
    ∧ targetTime_of now = time_Unix now - 600
    ∧ (∀ k, schemas s3 !! k =
            if decide (stale (targetTime_of now) (schemas s !! k)
                       ∧ stale (targetTime_of now) (schemas s2 !! k))
            then None else schemas s2 !! k)
    ∧ (∀ k v2 now', schemas s2 !! k = Some v2 →
         lastUsedUnixSeconds v2 = time_Unix now' → now ≤ now' →
         schemas s3 !! k = Some v2)
    ∧ (∀ k v1 v2, schemas s !! k = Some v1 → schemas s2 !! k = Some v2 →
         lastUsedUnixSeconds v1 < time_Unix now - 600 →
         lastUsedUnixSeconds v2 < time_Unix now - 600 →
         schemas s3 !! k = None)
    ∧ ((∀ k, stale (targetTime_of now) (schemas s2 !! k) →
             stale (targetTime_of now) (schemas s !! k)) →
       ∀ k, schemas s3 !! k =
            if decide (stale (targetTime_of now) (schemas s2 !! k))
            then None else schemas s2 !! k).
Proof.
  intros Hfree Hvis Hint Hfree2 Hpresent.
  destruct (clearExpired_run now order interleaved s s2 Hfree Hvis Hint Hfree2 Hpresent)
    as (m' & Hrun & Hm').
  exists (set_schemas (λ _, m') s2).
  split; [exact Hrun|]. split; [exact Hfree2|].
  split; [apply targetTime_of_Unix|]. simpl.
  split; [exact Hm'|]. split; [|split].
  - intros k v2 now' Hk Hts Hnow. rewrite Hm'.
    rewrite decide_False; [done|]. intros [_ H2]. rewrite Hk in H2. simpl in H2.
    rewrite targetTime_of_Unix, Hts in H2.
    assert (time_Unix now ≤ time_Unix now').
    { unfold time_Unix. apply Z.div_le_mono; lia. }
    lia.
  - intros k v1 v2 H1 H2 Hs1 Hs2. rewrite Hm'.
    rewrite decide_True; [done|].
    rewrite H1, H2. simpl. rewrite targetTime_of_Unix. done.
  - intros Hmono k. rewrite Hm'.
    destruct (decide (stale (targetTime_of now) (schemas s2 !! k))) as [H2|H2].
    + rewrite decide_True; [done|]. split; [by apply Hmono|done].
    + rewrite decide_False; [done|]. by intros [_ ?].
Qed.

(** ** Shutdown *)

Lemma delete_each_run (keys : list Z) s :
  ∃ m', delete_each keys s = Return ((), set_schemas (λ _, m') s)
        ∧ ∀ k, m' !! k = if decide (k ∈ keys) then None else schemas s !! k.
Proof.
  revert s. induction keys as [|k rest IH]; intros s.
  - exists (schemas s). split; [by destruct s|].
    intros k. rewrite decide_False; [done|]. apply not_elem_of_nil.
  - destruct (IH (set_schemas (delete k) s)) as (m' & Hrun & Hm').
    exists m'. split.
    + simpl. run_code. exact Hrun.
    + intros j. rewrite Hm'. simpl.
      destruct (decide (j = k)) as [->|Hne].
      * rewrite lookup_delete_eq.
        destruct (decide (k ∈ k :: rest)) as [_|H]; [by case_decide|].
        exfalso. apply H. by left.
      * rewrite lookup_delete_ne by done.
        destruct (decide (j ∈ rest)) as [Hj|Hj].
        -- rewrite decide_True; [done|by right].
        -- rewrite decide_False; [done|]. intros [?|?]%elem_of_cons; done.
Qed.

Lemma range_schemas_keys (order : list Z) m :
  (∀ k, k ∈ order → is_Some (m !! k)) →
  (omap (λ k, (λ v, (k, v)) <$> m !! k) order).*1 = order.
Proof.
  induction order as [|k rest IH]; intros Hin; [done|].
  destruct (Hin k) as [v Hv]; [by left|].
  simpl. rewrite Hv. simpl. f_equal. apply IH. intros j Hj. apply Hin. by right.
Qed.

Lemma Close_run (ctx_Err : option error) (order : list Z) s :
  cache_unlocked s →
  visits order (schemas s) →
  ∃ s1, Close ctx_Err order s = Return (ctx_Err, s1)
        ∧ schemas s1 = match ctx_Err with None => ∅ | Some _ => schemas s end
        ∧ cache_unlocked s1 ∧ shutSig s1 = true.
Proof.
  intros Hfree Hvis. unfold cache_unlocked in Hfree.
  destruct s as [cl sch cm rm sig cs]. simpl in *. subst cm.
  destruct ctx_Err as [e|].
  - eexists. split; [reflexivity|]. done.
  - destruct (delete_each_run order
                (mkDecoder cl sch (mkRWMutex 0 true) rm true cs)) as (m' & Hrun & Hm').
    exists (mkDecoder cl m' (mkRWMutex 0 false) rm true cs). split.
    + unfold Close, range_schemas. run_code.
      rewrite range_schemas_keys.
      2:{ intros k Hk. by apply (visits_elem_of order sch k Hvis). }
      rewrite Hrun. reflexivity.
    + split; [|done]. simpl. apply map_eq. intros k. rewrite Hm', lookup_empty. simpl.
      case_decide as Hk; [done|].
      destruct (sch !! k) eqn:E; [|done]. exfalso. apply Hk.
      apply (visits_elem_of order sch k Hvis). by eexists.
Qed.

(** C6. [Close] on a processor whose cache lock is free returns what
    [ctx.Err()] returns. With a live context that is [nil], and every entry
    has been removed: the cache has zero entries. With a cancelled or expired
    context it is the context's error, and the cache is the one before the
    call. Either way the lock is released, so a second [Close] returns as
    well, with the error of its own context only, and leaves the cache empty
    when that context is live. *)
Theorem Close_clears_or_reports (ctx_Err : option error) (order : list Z) s :
  cache_unlocked s →
  visits order (schemas s) →
  ∃ s1, Close ctx_Err order s = Return (ctx_Err, s1)
    ∧ (ctx_Err = None → schemas s1 = ∅ ∧ size (schemas s1) = 0%nat)
    ∧ (is_Some ctx_Err → schemas s1 = schemas s)
    ∧ ∀ ctx_Err2 order2,
        visits order2 (schemas s1) →
        ∃ s2, Close ctx_Err2 order2 s1 = Return (ctx_Err2, s2)
              ∧ (ctx_Err2 = None → schemas s2 = ∅ ∧ size (schemas s2) = 0%nat).
Proof.
  intros Hfree Hvis.
  destruct (Close_run ctx_Err order s Hfree Hvis) as (s1 & Hrun & Hsch & Hfree1 & _).
  exists s1. split; [exact Hrun|]. split; [|split].
  - intros ->. rewrite Hsch. split; [done|apply map_size_empty].
  - intros [e ->]. exact Hsch.
  - intros ctx_Err2 order2 Hvis2.
    destruct (Close_run ctx_Err2 order2 s1 Hfree1 Hvis2) as (s2 & Hrun2 & Hsch2 & _ & _).
    exists s2. split; [exact Hrun2|].
    intros ->. rewrite Hsch2. split; [done|apply map_size_empty].
Qed.

End CacheProperties.

(** ** Concurrent callers of [getDecoder] *)

Section PoolProperties.

Context {Registry : Type}.
Context (GetSchemaByID : Z → Registry → (SchemaInfo * option error) * Registry).
Context (getProtobufDecoder getAvroDecoder :
  SchemaInfo → Registry → (schemaDecoder * option error) * Registry).

#[local] Abbreviation State := (schemaRegistryDecoder Registry).
#[local] Abbreviation thread_step' :=
  (thread_step GetSchemaByID getProtobufDecoder getAvroDecoder).
#[local] Abbreviation phase' := (phase getProtobufDecoder getAvroDecoder).
#[local] Abbreviation resolves' :=
  (resolves GetSchemaByID getProtobufDecoder getAvroDecoder).
#[local] Abbreviation pool_step' :=
  (pool_step GetSchemaByID getProtobufDecoder getAvroDecoder).

Implicit Types (ts : list (Z * thread)) (t u : thread) (s : State).

Lemma tally_insert (f : thread → bool) ts (i : nat) (id id' : Z) t t' :
  ts !! i = Some (id, t) →
  (tally f (<[i:=(id', t')]> ts) + b2n (f t) = tally f ts + b2n (f t'))%nat.
Proof.
  unfold tally. revert i. induction ts as [|x ts IH]; intros i Hi; [done|].
  destruct i as [|i]; simpl in Hi.
  - injection Hi as ->. simpl.
    rewrite !filter_cons. simpl. destruct (f t), (f t'); simpl; lia.
  - simpl. rewrite !filter_cons. specialize (IH i Hi).
    destruct (f x.2); simpl; lia.
Qed.

Lemma tally_pos (f : thread → bool) ts (i : nat) (id : Z) t :
  ts !! i = Some (id, t) → f t = true → (1 ≤ tally f ts)%nat.
Proof.
  intros Hi Ht. unfold tally.
  assert (Hin : (id, t) ∈ filter (λ it, f it.2) ts).
  { apply list_elem_of_filter. split; [simpl; by rewrite Ht|by eapply list_elem_of_lookup_2]. }
  destruct (filter _ ts); [by apply elem_of_nil in Hin|simpl; lia].
Qed.

Lemma tally_pos_inv (f : thread → bool) ts :
  (1 ≤ tally f ts)%nat → ∃ i id t, ts !! i = Some (id, t) ∧ f t = true.
Proof.
  unfold tally. intros Hpos.
  destruct (filter (λ it, f it.2) ts) as [|[id t] rest] eqn:E; [simpl in Hpos; lia|].
  assert (Hin : (id, t) ∈ filter (λ it, f it.2) ts) by (rewrite E; by left).
  apply list_elem_of_filter in Hin as [Hf Hin].
  apply list_elem_of_lookup_1 in Hin as [i Hi].
  exists i, id, t. split; [done|]. simpl in Hf. by destruct (f t).
Qed.

Lemma tally_unique (f : thread → bool) ts (i j : nat) (id id' : Z) t u :
  (tally f ts ≤ 1)%nat →
  ts !! i = Some (id, t) → f t = true →
  ts !! j = Some (id', u) → f u = true →
  i = j.
Proof.
  revert i j. induction ts as [|x ts IH]; intros i j Hle Hi Ht Hj Hu; [done|].
  assert (Hcons : (tally f (x :: ts) = b2n (f x.2) + tally f ts)%nat).
  { unfold tally. rewrite filter_cons. by destruct (f x.2). }
  rewrite Hcons in Hle. clear Hcons.
  destruct i as [|i], j as [|j]; simpl in Hi, Hj; [done| | |].
  - injection Hi as ->. simpl in Hle. rewrite Ht in Hle. simpl in Hle.
    pose proof (tally_pos f ts j id' u Hj Hu). lia.
  - injection Hj as ->. simpl in Hle. rewrite Hu in Hle. simpl in Hle.
    pose proof (tally_pos f ts i id t Hi Ht). lia.
  - f_equal. eapply IH; try done. lia.
Qed.

Lemma total_steps_insert ts (i : nat) (id id' : Z) t t' :
  ts !! i = Some (id, t) →
  (total_steps (<[i:=(id', t')]> ts) + remaining_steps t =
   total_steps ts + remaining_steps t')%nat.
Proof.
  unfold total_steps. revert i. induction ts as [|x ts IH]; intros i Hi; [done|].
  destruct i as [|i]; simpl in Hi.
  - injection Hi as ->. simpl. lia.
  - simpl. specialize (IH i Hi). lia.
Qed.

Ltac run_step H :=
  unfold build_decoder in H;
  unfold mbind, M_bind, mret, M_ret, lift, cacheMut_RLock, cacheMut_RUnlock,
    cacheMut_Lock, cacheMut_Unlock, requestMut_Lock, requestMut_Unlock,
    load_schema, store_lastUsed, store_schema, client_GetSchemaByID, build,
    set_cacheMut, set_requestMut, set_schemas in H;
  simpl in H;
  repeat match type of H with
         | context [GetSchemaByID ?a ?b] =>
           destruct (GetSchemaByID a b) as [[? [?|]] ?] eqn:?; simpl in H
         | context [getProtobufDecoder ?a ?b] =>
           destruct (getProtobufDecoder a b) as [[? [?|]] ?] eqn:?; simpl in H
         | context [getAvroDecoder ?a ?b] =>
           destruct (getAvroDecoder a b) as [[? [?|]] ?] eqn:?; simpl in H
         | context [decide ?P] => destruct (decide P); simpl in H
         end;
  try discriminate H;
  try (injection H as <- <-).

(** Every step brings the goroutine closer to its return. *)
Lemma thread_step_remaining (now : Time) (id : Z) t t' s s' :
  thread_step' now id t s = Return (t', s') →
  (remaining_steps t' < remaining_steps t)%nat.
Proof.
  intros Hstep. destruct s as [cl sch [rd wr] rm sig cs].
  destruct wr, rm, rd;
    destruct t as [| |c|[c|]| | |c|[c|]|info|d|d|d|r|r]; simpl in Hstep;
    run_step Hstep; simpl; lia.
Qed.

(** A step keeps the locks and the goroutines in agreement. *)
Lemma step_locks (now : Time) (id : Z) ts (i : nat) t t' s s' :
  locks_agree s ts →
  ts !! i = Some (id, t) →
  thread_step' now id t s = Return (t', s') →
  locks_agree s' (<[i:=(id, t')]> ts).
Proof.
  intros [Hr Hw Hq] Hi Hstep.
  pose proof (tally_insert holds_read ts i id id t t' Hi) as Hr'.
  pose proof (tally_insert holds_write ts i id id t t' Hi) as Hw'.
  pose proof (tally_insert holds_requestMut ts i id id t t' Hi) as Hq'.
  destruct s as [cl sch [rd wr] rm sig cs]. simpl in Hr, Hw, Hq.
  destruct wr, rm, rd;
  destruct t as [| |c|[c|]| | |c|[c|]|info|d|d|d|r|r]; simpl in Hstep; run_step Hstep;
    simpl in Hr', Hw', Hq'; constructor; simpl; lia.
Qed.

Lemma Forall_insert_others {A} (Q : A → Prop) (l : list A) (i : nat) (x : A) :
  (∀ j y, j ≠ i → l !! j = Some y → Q y) → Q x → Forall Q (<[i:=x]> l).
Proof.
  intros Hothers Hx. apply Forall_lookup. intros j y Hj.
  destruct (decide (j = i)) as [->|Hne].
  - destruct (decide (i < length l)%nat) as [Hlt|Hge].
    + rewrite list_lookup_insert_eq in Hj by done. by injection Hj as <-.
    + rewrite list_insert_ge in Hj by lia.
      apply lookup_lt_Some in Hj. lia.
  - rewrite list_lookup_insert_ne in Hj by done. by eapply Hothers.
Qed.

(** The goroutine that holds [requestMut] is the only one that does. *)
Lemma requestMut_holder s ts (i : nat) (id : Z) t :
  locks_agree s ts →
  ts !! i = Some (id, t) →
  holds_requestMut t = true →
  requestMut s = true
  ∧ ∀ j id' u, j ≠ i → ts !! j = Some (id', u) → holds_requestMut u = false.
Proof.
  intros [_ _ Hq] Hi Ht.
  pose proof (tally_pos holds_requestMut ts i id t Hi Ht) as Hpos.
  destruct (requestMut s); [|lia]. split; [done|].
  intros j id' u Hne Hj. destruct (holds_requestMut u) eqn:Hu; [|done].
  exfalso. apply Hne.
  eapply (tally_unique holds_requestMut ts j i id' id u t); eauto. lia.
Qed.

Lemma fetches_calls (id : Z) (s s' : State) :
  calls s' = calls s → fetches id s' = fetches id s.
Proof. unfold fetches. by intros ->. Qed.

Lemma fetches_cons (id : Z) (c : call) (s s' : State) :
  calls s' = c :: calls s →
  fetches id s' = (b2n (is_fetch_of id c) + fetches id s)%nat.
Proof.
  unfold fetches. intros ->. rewrite filter_cons.
  destruct (is_fetch_of id c); simpl; done.
Qed.

(** A caller for another identifier leaves the entry and the fetches of
    [id] alone. *)
Lemma thread_step_other (now : Time) (id id' : Z) t t' s s' :
  id' ≠ id →
  thread_step' now id' t s = Return (t', s') →
  schemas s' !! id = schemas s !! id ∧ fetches id s' = fetches id s.
Proof.
  intros Hne Hstep.
  assert (Hf : is_fetch_of id (call_GetSchemaByID id') = false).
  { simpl. by rewrite bool_decide_eq_false_2. }
  destruct s as [cl sch [rd wr] rm sig cs].
  destruct wr, rm, rd;
    destruct t as [| |c|[c|]| | |c|[c|]|info|d|d|d|r|r]; simpl in Hstep;
    run_step Hstep; unfold fetches; simpl;
    rewrite ?lookup_alter_ne, ?lookup_insert_ne by done;
    rewrite ?filter_cons_False by (simpl; try rewrite bool_decide_eq_false_2 by done; simpl; tauto);
    done.
Qed.

Lemma callers_of_insert (id : Z) (P : thread → Prop) ts (i : nat) (id' : Z) t' :
  callers_of id P ts → (id' = id → P t') → callers_of id P (<[i:=(id', t')]> ts).
Proof. intros Hall Ht. by apply Forall_insert. Qed.

Lemma callers_of_lookup (id : Z) (P : thread → Prop) ts (i : nat) t :
  callers_of id P ts → ts !! i = Some (id, t) → P t.
Proof. intros Hall Hi. by apply (proj1 (Forall_lookup _ _) Hall i (id, t) Hi). Qed.

(** The builder stays where it is when another goroutine steps. *)
Lemma builder_stays (id : Z) ts (i : nat) (id' : Z) t t' :
  (∃ i0 tb, ts !! i0 = Some (id, tb) ∧ building tb) →
  ts !! i = Some (id', t) →
  ¬ (id' = id ∧ building t) →
  ∃ i0 tb, <[i:=(id', t')]> ts !! i0 = Some (id, tb) ∧ building tb.
Proof.
  intros (i0 & tb & Hi0 & Hb) Hi Hnot. exists i0, tb. split; [|done].
  rewrite list_lookup_insert_ne; [done|].
  intros ->. rewrite Hi in Hi0. injection Hi0 as -> ->. by apply Hnot.
Qed.

Lemma builder_steps (id : Z) ts (i : nat) t t' :
  ts !! i = Some (id, t) →
  building t' →
  ∃ i0 tb, <[i:=(id, t')]> ts !! i0 = Some (id, tb) ∧ building tb.
Proof.
  intros Hi Hb. exists i, t'. split; [|done].
  apply list_lookup_insert_eq. by eapply lookup_lt_Some.
Qed.

(** A step of a caller for another identifier keeps the phase. *)
Lemma step_phase_other (now : Time) (id id' : Z) (n0 : nat) ts (i : nat) t t' s s' :
  id' ≠ id →
  phase' id n0 (mkPool s ts) →
  ts !! i = Some (id', t) →
  thread_step' now id' t s = Return (t', s') →
  phase' id n0 (mkPool s' (<[i:=(id', t')]> ts)).
Proof.
  intros Hne Hphase Hi Hstep. unfold phase in *. simpl in *.
  destruct (thread_step_other now id id' t t' s s' Hne Hstep) as [-> ->].
  destruct Hphase as [(Hsch & Hn & Hall)|[(Hsch & Hn & Hb & Hall)|(f & Hsch & Hn & Hall)]].
  - left. split; [done|]. split; [done|]. by apply callers_of_insert.
  - right. left. split; [done|]. split; [done|]. split.
    + eapply builder_stays; [done|done|]. by intros [? _].
    + by apply callers_of_insert.
  - right. right. exists f. split; [done|]. split; [done|]. by apply callers_of_insert.
Qed.

(** A step of a caller of [getDecoder id] keeps the phase or moves to the
    next one. *)
Lemma step_phase_same (now : Time) (id : Z) (n0 : nat) ts (i : nat) t t' s s' :
  resolves' id →
  locks_agree s ts →
  phase' id n0 (mkPool s ts) →
  ts !! i = Some (id, t) →
  thread_step' now id t s = Return (t', s') →
  phase' id n0 (mkPool s' (<[i:=(id, t')]> ts)).
Proof.
  intros Hres Hlocks Hphase Hi Hstep. unfold phase in *. simpl in *.
  destruct Hphase as [(Hsch & Hn & Hall)|[(Hsch & Hn & Hb & Hall)|(f & Hsch & Hn & Hall)]].
  - (* before the fetch *)
    pose proof (callers_of_lookup id _ ts i t Hall Hi) as Ht.
    destruct t as [| |c|c| | |c|c|info|d|d|d|r|r]; simpl in Ht; try done; try subst c.
    + left. destruct s as [cl sch [rd wr] rm sig cs]. destruct wr; run_step Hstep.
      simpl. split; [done|]. split; [done|]. by apply callers_of_insert.
    + left. destruct s as [cl sch [rd wr] rm sig cs]. run_step Hstep.
      simpl in *. split; [done|]. split; [done|]. by apply callers_of_insert.
    + left. destruct s as [cl sch [rd wr] rm sig cs]. destruct rd; run_step Hstep.
      simpl in *. split; [done|]. split; [done|]. by apply callers_of_insert.
    + left. destruct s as [cl sch [rd wr] rm sig cs]. destruct rm; run_step Hstep.
      simpl in *. split; [done|]. split; [done|]. by apply callers_of_insert.
    + left. destruct s as [cl sch [rd wr] rm sig cs]. destruct wr; run_step Hstep.
      simpl. split; [done|]. split; [done|]. by apply callers_of_insert.
    + left. destruct s as [cl sch [rd wr] rm sig cs]. run_step Hstep.
      simpl in *. split; [done|]. split; [done|]. by apply callers_of_insert.
    + left. destruct s as [cl sch [rd wr] rm sig cs]. destruct rd; run_step Hstep.
      simpl in *. split; [done|]. split; [done|]. by apply callers_of_insert.
    + (* the fetch *)
      right. left.
      destruct (requestMut_holder s ts i id _ Hlocks Hi eq_refl) as [Hheld Hothers].
      destruct (Hres (client s)) as (info & reg1 & Hfetch & Hbuilds).
      destruct s as [cl sch [rd wr] rm sig cs]. simpl in *.
      unfold mbind, M_bind, client_GetSchemaByID in Hstep. simpl in Hstep.
      rewrite Hfetch in Hstep. simpl in Hstep. injection Hstep as <- <-.
      simpl. split; [done|]. split.
      { rewrite (fetches_cons id (call_GetSchemaByID id)
                   (mkDecoder cl sch (mkRWMutex rd wr) rm sig cs)) by done.
        simpl. rewrite bool_decide_eq_true_2 by done. simpl. by rewrite Hn. }
      split; [by eapply builder_steps|].
      apply Forall_insert_others; [|done].
      intros j [id' u] Hne Hj Hid. simpl in *. subst id'.
      pose proof (callers_of_lookup id _ ts j u Hall Hj) as Hu.
      pose proof (Hothers j id u Hne Hj) as Hfree.
      destruct u; simpl in *; done.
  - (* during the build *)
    pose proof (callers_of_lookup id _ ts i t Hall Hi) as Ht.
    assert (Hheld : requestMut s = true).
    { destruct Hb as (i0 & tb & Hi0 & Hbuilding).
      apply (requestMut_holder s ts i0 id tb Hlocks Hi0). by destruct tb. }
    destruct t as [| |c|c| | |c|c|info|d|d|d|r|r]; simpl in Ht; try done; try subst c.
    + right. left. destruct s as [cl sch [rd wr] rm sig cs]. destruct wr; run_step Hstep.
      simpl in *. split; [done|]. split; [done|]. split.
      * eapply builder_stays; [done|done|]. by intros [_ ?].
      * by apply callers_of_insert.
    + right. left. destruct s as [cl sch [rd wr] rm sig cs]. run_step Hstep.
      simpl in *. split; [done|]. split; [done|]. split.
      * eapply builder_stays; [done|done|]. by intros [_ ?].
      * by apply callers_of_insert.
    + right. left. destruct s as [cl sch [rd wr] rm sig cs]. destruct rd; run_step Hstep.
      simpl in *. split; [done|]. split; [done|]. split.
      * eapply builder_stays; [done|done|]. by intros [_ ?].
      * by apply callers_of_insert.
    + (* [requestMut] is taken *)
      destruct s as [cl sch [rd wr] rm sig cs]. simpl in *. subst rm. run_step Hstep.
    + (* the build *)
      right. left. destruct s as [cl sch [rd wr] rm sig cs]. simpl in *.
      destruct Ht as [[Htype Hbuilt]|[Htype Hbuilt]];
        destruct (Hbuilt cl) as (f & reg' & Hres');
        unfold build_decoder in Hstep.
      * rewrite decide_True in Hstep by done.
        unfold mbind, M_bind, build in Hstep. simpl in Hstep.
        rewrite Hres' in Hstep. simpl in Hstep. injection Hstep as <- <-.
        simpl. split; [done|]. split; [|split; [by eapply builder_steps|]].
        { rewrite (fetches_cons id (call_getProtobufDecoder info)
                     (mkDecoder cl sch (mkRWMutex rd wr) rm sig cs)) by done.
          simpl. done. }
        apply callers_of_insert; [done|]. simpl. by eexists.
      * rewrite decide_False in Hstep by (destruct Htype as [H|H]; rewrite H; discriminate).
        rewrite decide_True in Hstep by done.
        unfold mbind, M_bind, build in Hstep. simpl in Hstep.
        rewrite Hres' in Hstep. simpl in Hstep. injection Hstep as <- <-.
        simpl. split; [done|]. split; [|split; [by eapply builder_steps|]].
        { rewrite (fetches_cons id (call_getAvroDecoder info)
                     (mkDecoder cl sch (mkRWMutex rd wr) rm sig cs)) by done.
          simpl. done. }
        apply callers_of_insert; [done|]. simpl. by eexists.
    + right. left. destruct s as [cl sch [[|rd] [|]] rm sig cs]; run_step Hstep.
      simpl in *. split; [done|]. split; [done|]. split; [by eapply builder_steps|].
      by apply callers_of_insert.
    + (* the insertion *)
      right. right. destruct Ht as [f ->]. exists f.
      destruct (requestMut_holder s ts i id _ Hlocks Hi eq_refl) as [_ Hothers].
      destruct s as [cl sch [rd wr] rm sig cs]. run_step Hstep. simpl in *.
      split; [eexists; split; [apply lookup_insert_eq|done]|]. split; [done|].
      apply Forall_insert_others; [|done].
      intros j [id' u] Hne Hj Hid. simpl in *. subst id'.
      pose proof (callers_of_lookup id _ ts j u Hall Hj) as Hu.
      pose proof (Hothers j id u Hne Hj) as Hfree.
      destruct u; simpl in *; try done; by left.
  - (* after the insertion *)
    pose proof (callers_of_lookup id _ ts i t Hall Hi) as Ht.
    destruct Hsch as (c0 & Hsch & Hdec).
    assert (Halter : ∀ x, ∃ c, alter (λ c, mkCached x (decoder c)) id (schemas s) !! id = Some c
                               ∧ decoder c = Some f).
    { intros x. rewrite lookup_alter_eq, Hsch. simpl. by eexists. }
    right. right. exists f.
    destruct t as [| |c|c| | |c|c|info|d|d|d|r|r]; simpl in Ht; try done.
    + destruct s as [cl sch [rd wr] rm sig cs]. destruct wr; run_step Hstep.
      simpl in *. split; [by eexists|]. split; [done|]. by apply callers_of_insert.
    + destruct s as [cl sch [rd wr] rm sig cs]. run_step Hstep.
      simpl in *. split; [by eexists|]. split; [done|].
      apply callers_of_insert; [done|]. simpl. intros _. right. by eexists.
    + destruct s as [cl sch [rd wr] rm sig cs]. destruct rd; run_step Hstep.
      simpl in *. split; [by eexists|]. split; [done|]. by apply callers_of_insert.
    + destruct Ht as [->|(c' & -> & Hc')].
      * destruct s as [cl sch [rd wr] rm sig cs]. destruct rm; run_step Hstep.
        simpl in *. split; [by eexists|]. split; [done|]. by apply callers_of_insert.
      * destruct s as [cl sch [rd wr] rm sig cs]. run_step Hstep.
        simpl in *. split; [apply Halter|]. split; [done|].
        apply callers_of_insert; [done|]. simpl. by rewrite Hc'.
    + destruct s as [cl sch [rd wr] rm sig cs]. destruct wr; run_step Hstep.
      simpl in *. split; [by eexists|]. split; [done|]. by apply callers_of_insert.
    + destruct s as [cl sch [rd wr] rm sig cs]. run_step Hstep.
      simpl in *. split; [by eexists|]. split; [done|].
      apply callers_of_insert; [done|]. simpl. intros _. by eexists.
    + destruct s as [cl sch [rd wr] rm sig cs]. destruct rd; run_step Hstep.
      simpl in *. split; [by eexists|]. split; [done|]. by apply callers_of_insert.
    + destruct Ht as (c' & -> & Hc').
      destruct s as [cl sch [rd wr] rm sig cs]. run_step Hstep.
      simpl in *. split; [apply Halter|]. split; [done|].
      apply callers_of_insert; [done|]. simpl. by rewrite Hc'.
    + subst d. destruct s as [cl sch [rd wr] rm sig cs]. destruct wr; run_step Hstep.
      simpl in *. split; [by eexists|]. split; [done|]. by apply callers_of_insert.
    + subst r. destruct s as [cl sch [rd wr] rm sig cs]. destruct rm; run_step Hstep.
      simpl in *. split; [by eexists|]. split; [done|]. by apply callers_of_insert.
Qed.
Lemma enabled_steps (now : Time) (id : Z) (s : State) (t : thread) :
  enabled s t → ∃ t' s', thread_step' now id t s = Return (t', s').
Proof.
  intros Hen. destruct s as [cl sch [rd wr] rm sig cs].
  destruct t as [| |c|[c|]| | |c|[c|]|info|d|d|d|r|r]; simpl in Hen; simplify_eq;
    try done; try (by eexists _, _).
  - destruct rd; [done|]. by eexists _, _.
  - destruct rd; [done|]. by eexists _, _.
  - simpl. unfold mbind, M_bind, client_GetSchemaByID. simpl.
    destruct (GetSchemaByID id cl) as [[info [err|]] reg]; by eexists _, _.
  - simpl. unfold build_decoder.
    destruct (decide (info_Type info = "PROTOBUF")).
    + unfold mbind, M_bind, build. simpl.
      destruct (getProtobufDecoder info cl) as [[d [err|]] reg]; by eexists _, _.
    + destruct (decide (info_Type info = "" ∨ info_Type info = "AVRO")).
      * unfold mbind, M_bind, build. simpl.
        destruct (getAvroDecoder info cl) as [[d [err|]] reg]; by eexists _, _.
      * by eexists _, _.
Qed.

(** No deadlock: while a goroutine has not returned, some goroutine can
    step. *)
Lemma pool_progress (p : pool) (i : nat) (id : Z) t :
  locks_agree (shared p) (threads p) →
  threads p !! i = Some (id, t) →
  is_returned t = false →
  ∃ p', pool_step' p p'.
Proof.
  intros [Hr Hw Hq] Hi Ht.
  assert (Hgo : ∀ j id' u, threads p !! j = Some (id', u) → enabled (shared p) u →
                           ∃ p', pool_step' p p').
  { intros j id' u Hj Hen.
    destruct (enabled_steps 0 id' (shared p) u Hen) as (u' & s' & Hstep).
    eexists. by eapply pool_step_thread. }
  destruct (decide (1 ≤ tally holds_read (threads p))%nat) as [Hread|Hread].
  { destruct (tally_pos_inv _ _ Hread) as (j & id' & u & Hj & Hu).
    apply (Hgo j id' u Hj). destruct u; simpl in *; try done; lia. }
  destruct (decide (1 ≤ tally holds_write (threads p))%nat) as [Hwrite|Hwrite].
  { destruct (tally_pos_inv _ _ Hwrite) as (j & id' & u & Hj & Hu).
    apply (Hgo j id' u Hj). destruct u; simpl in *; try done.
    destruct (writer (cacheMut (shared p))); [done|lia]. }
  assert (Hfree : cacheMut (shared p) = mkRWMutex 0 false).
  { destruct (cacheMut (shared p)) as [rd wr]. simpl in *.
    destruct wr; [lia|]. f_equal. lia. }
  destruct (decide (1 ≤ tally holds_requestMut (threads p))%nat) as [Hreq|Hreq].
  { destruct (tally_pos_inv _ _ Hreq) as (j & id' & u & Hj & Hu).
    assert (Hheld : requestMut (shared p) = true).
    { destruct (requestMut (shared p)); [done|lia]. }
    assert (holds_read u = false).
    { destruct (holds_read u) eqn:E; [|done]. pose proof (tally_pos _ _ _ _ _ Hj E). lia. }
    assert (holds_write u = false).
    { destruct (holds_write u) eqn:E; [|done]. pose proof (tally_pos _ _ _ _ _ Hj E). lia. }
    apply (Hgo j id' u Hj).
    destruct u as [| |c|[c|]| | |c|[c|]|info|d|d|d|r|r]; simpl in *; try done;
      by rewrite Hfree. }
  assert (Hnone : requestMut (shared p) = false).
  { destruct (requestMut (shared p)); [lia|done]. }
  assert (holds_read t = false).
  { destruct (holds_read t) eqn:E; [|done]. pose proof (tally_pos _ _ _ _ _ Hi E). lia. }
  assert (holds_requestMut t = false).
  { destruct (holds_requestMut t) eqn:E; [|done]. pose proof (tally_pos _ _ _ _ _ Hi E). lia. }
  apply (Hgo i id t Hi).
  destruct t as [| |c|[c|]| | |c|[c|]|info|d|d|d|r|r]; simpl in *; try done;
    by rewrite Hfree.
Qed.

Lemma tally_enter (f : thread → bool) (callers : list Z) :
  f at_first_RLock = false → tally f (enter callers) = 0%nat.
Proof.
  intros Hf. induction callers as [|id rest IH]; [done|].
  change (enter (id :: rest)) with ((id, at_first_RLock) :: enter rest).
  unfold tally in *.
  rewrite filter_cons_False by (simpl; rewrite Hf; simpl; tauto). exact IH.
Qed.

Lemma total_steps_enter (callers : list Z) :
  total_steps (enter callers) = (13 * length callers)%nat.
Proof.
  induction callers as [|id rest IH]; [done|].
  change (enter (id :: rest)) with ((id, at_first_RLock) :: enter rest).
  change (total_steps ((id, at_first_RLock) :: enter rest))
    with (13 + total_steps (enter rest))%nat.
  rewrite IH. simpl length. lia.
Qed.

(** What holds of every pool reached from callers that enter [getDecoder]
    together on an idle processor with no entry for [id]. *)
Lemma pool_invariant (id : Z) (callers : list Z) (k : nat) (s0 : State) (p : pool) :
  resolves' id →
  idle s0 →
  schemas s0 !! id = None →
  nsteps pool_step' k (mkPool s0 (enter callers)) p →
  locks_agree (shared p) (threads p)
  ∧ phase' id (fetches id s0) p
  ∧ (threads p).*1 = callers
  ∧ (k + total_steps (threads p) ≤ 13 * length callers)%nat.
Proof.
  intros Hres [Hcache Hreq] Hmiss. revert p.
  induction k as [|k IH]; intros p Hsteps.
  - inversion Hsteps; subst. simpl. split; [|split; [|split]].
    + constructor; rewrite tally_enter by done.
      * by rewrite Hcache.
      * by rewrite Hcache.
      * by rewrite Hreq.
    + left. simpl. split; [done|]. split; [done|].
      unfold callers_of, enter. apply Forall_fmap, Forall_true. done.
    + unfold enter. rewrite <- list_fmap_compose. apply list_fmap_id.
    + rewrite total_steps_enter. lia.
  - apply nsteps_inv_r in Hsteps as (q & Hsteps & Hstep).
    destruct (IH q Hsteps) as (Hlocks & Hphase & Hids & Hbound).
    destruct Hstep as [q i now id' t t' s' Hi Hstep]. simpl.
    split; [by eapply step_locks|]. split; [|split].
    + destruct q as [s ts]. simpl in *.
      destruct (decide (id' = id)) as [->|Hne].
      * by eapply step_phase_same.
      * by eapply step_phase_other.
    + rewrite list_fmap_insert. simpl. rewrite list_insert_id; [done|].
      rewrite list_lookup_fmap, Hi. done.
    + pose proof (thread_step_remaining now id' t t' _ _ Hstep).
      pose proof (total_steps_insert (threads q) i id' id' t t' Hi). lia.
Qed.

(** C8. Any number of callers enter [getDecoder] together, some of them for
    [id], on an idle processor that has no entry for [id], against a registry
    that serves [id]. In every pool they can reach, under every schedule: the
    fetch of [id] has been made at most once; at most one goroutine of the
    whole pool is between [requestMut.Lock] and its deferred [Unlock], where
    the fetches are made; as soon as one caller for [id] has returned, and so
    when all callers have, the fetch of [id] has been made exactly once and
    what that caller got is, without an error, the decoder that is in the
    cache; no schedule is longer than thirteen steps per caller, and while a
    caller has not returned some caller can step. *)
Theorem getDecoder_single_flight (id : Z) (callers : list Z) (k : nat)
    (s0 : State) (p : pool) :
  resolves' id →
  idle s0 →
  schemas s0 !! id = None →
  nsteps pool_step' k (mkPool s0 (enter callers)) p →
  (fetches id (shared p) ≤ S (fetches id s0))%nat
  ∧ (tally holds_requestMut (threads p) ≤ 1)%nat
  ∧ (∀ i r, threads p !! i = Some (id, returned r) →
       fetches id (shared p) = S (fetches id s0)
       ∧ ∃ f c, r = (Some f, None)
                ∧ schemas (shared p) !! id = Some c ∧ decoder c = Some f)
  ∧ (id ∈ callers → Forall (λ it, is_returned it.2 = true) (threads p) →
       fetches id (shared p) = S (fetches id s0))
  ∧ (k + total_steps (threads p) ≤ 13 * length callers)%nat
  ∧ (∀ i id' t, threads p !! i = Some (id', t) → is_returned t = false →
       ∃ p', pool_step' p p').
Proof.
  intros Hres Hidle Hmiss Hsteps.
  destruct (pool_invariant id callers k s0 p Hres Hidle Hmiss Hsteps)
    as (Hlocks & Hphase & Hids & Hbound).
  assert (Hret : ∀ i r, threads p !! i = Some (id, returned r) →
            fetches id (shared p) = S (fetches id s0)
            ∧ ∃ f c, r = (Some f, None)
                     ∧ schemas (shared p) !! id = Some c ∧ decoder c = Some f).
  { intros i r Hi.
    destruct Hphase as [(_ & _ & Hall)|[(_ & _ & _ & Hall)|(f & (c & Hc & Hf) & Hn & Hall)]].
    - by pose proof (callers_of_lookup id _ _ i _ Hall Hi).
    - by pose proof (callers_of_lookup id _ _ i _ Hall Hi).
    - pose proof (callers_of_lookup id _ _ i _ Hall Hi) as Hr. simpl in Hr.
      split; [done|]. by exists f, c. }
  split; [|split; [|split; [exact Hret|split; [|split; [exact Hbound|]]]]].
  - destruct Hphase as [(_ & -> & _)|[(_ & -> & _)|(f & _ & -> & _)]]; lia.
  - destruct Hlocks as [_ _ Hq]. rewrite Hq. destruct (requestMut (shared p)); lia.
  - intros Hin Hall.
    rewrite <- Hids in Hin. apply list_elem_of_fmap in Hin as ([id' t] & Hid & Hin).
    simpl in Hid. subst id'.
    apply list_elem_of_lookup_1 in Hin as [i Hi].
    pose proof (proj1 (Forall_lookup _ _) Hall i _ Hi) as Ht. simpl in Ht.
    destruct t; try done. by apply (Hret i r).
  - intros i id' t Hi Ht. by eapply pool_progress.
Qed.

Lemma run_thread_step (fuel : nat) (now : Time) (id : Z) (t : thread) (s : State) :
  is_returned t = false →
  run_thread GetSchemaByID getProtobufDecoder getAvroDecoder (S fuel) now id t s =
  match thread_step' now id t s with
  | Return (t', s') =>
    run_thread GetSchemaByID getProtobufDecoder getAvroDecoder fuel now id t' s'
  | Panic p => Panic p
  | Blocked => Blocked
  end.
Proof. intros Ht. destruct t; try done. Qed.

Lemma run_thread_returned (fuel : nat) (now : Time) (id : Z) r (s : State) :
  run_thread GetSchemaByID getProtobufDecoder getAvroDecoder fuel now id (returned r) s =
  Return (r, s).
Proof. by destruct fuel. Qed.




Ltac run_monad :=
  cbv beta iota zeta delta [thread_step getDecoder fetch_and_build build_decoder
    mbind M_bind mret M_ret lift cacheMut_RLock cacheMut_RUnlock
    cacheMut_Lock cacheMut_Unlock requestMut_Lock requestMut_Unlock
    load_schema store_lastUsed store_schema client_GetSchemaByID build
    set_cacheMut set_requestMut set_schemas
    readers writer cacheMut schemas client requestMut shutSig calls].

Ltac thread_steps :=
  repeat (first [rewrite run_thread_returned
                |rewrite run_thread_step by reflexivity; run_monad]).

Lemma run_thread_getDecoder (now : Time) (id : Z) (s : State) :
  run_thread GetSchemaByID getProtobufDecoder getAvroDecoder 13 now id at_first_RLock s =
  getDecoder GetSchemaByID getProtobufDecoder getAvroDecoder now id s.
Proof.
  destruct s as [cl sch [rd wr] rm sig cs].
  run_monad.
  destruct wr; thread_steps; [reflexivity|].
  destruct (sch !! id) as [c|] eqn:Hc; thread_steps; [reflexivity|].
  destruct rm; thread_steps; [reflexivity|].
  rewrite Hc. thread_steps.
  destruct (GetSchemaByID id cl) as [[info [err|]] reg]; thread_steps; [reflexivity|].
  destruct (decide (info_Type info = "PROTOBUF")).
  - destruct (getProtobufDecoder info reg) as [[d [err|]] reg']; thread_steps; [reflexivity|].
    destruct rd; thread_steps; reflexivity.
  - destruct (decide (info_Type info = "" ∨ info_Type info = "AVRO")).
    + destruct (getAvroDecoder info reg) as [[d [err|]] reg']; thread_steps; [reflexivity|].
      destruct rd; thread_steps; reflexivity.
    + thread_steps. reflexivity.
Qed.
(** A schedule that runs through is an execution of the pool. *)
Lemma run_schedule_nsteps (schedule : list (nat * Time)) (p p' : pool) :
  run_schedule GetSchemaByID getProtobufDecoder getAvroDecoder schedule p = Some p' →
  nsteps pool_step' (length schedule) p p'.
Proof.
  revert p. induction schedule as [|[i now] rest IH]; intros p Hrun; simpl in Hrun.
  - injection Hrun as <-. constructor.
  - destruct (threads p !! i) as [[id t]|] eqn:Hi; [|done].
    destruct (thread_step' now id t (shared p)) as [[t' s']| |] eqn:Hstep; try done.
    simpl. eapply nsteps_l; [|by apply IH].
    by eapply pool_step_thread.
Qed.

End PoolProperties.

(** ** The properties on the registry stub *)

#[local] Abbreviation stub_getDecoder :=
  (getDecoder Stub.GetSchemaByID Stub.getProtobufDecoder Stub.getAvroDecoder).
#[local] Abbreviation stub_Process :=
  (Process Stub.GetSchemaByID Stub.getProtobufDecoder Stub.getAvroDecoder).

Lemma getDecoder_failure_not_cached_witness :
  ∃ s', stub_getDecoder Stub.at_second_2000 9 (Stub.processor ∅) =
        Return ((None, Some "schema not found"%string), s')
        ∧ schemas s' = ∅.
Proof.
  destruct (getDecoder_failure_not_cached
              Stub.GetSchemaByID Stub.getProtobufDecoder Stub.getAvroDecoder
              Stub.at_second_2000 9 (Stub.processor ∅) "schema not found"%string)
    as (s' & Hrun & Hsch & _).
  - split; reflexivity.
  - reflexivity.
  - eapply fetch_fails. reflexivity.
  - exists s'. split; [exact Hrun|exact Hsch].
Defined.

Lemma getDecoder_dispatch_witness :
  stub_getDecoder Stub.at_second_2000 7 (Stub.processor ∅) =
  Return (built Stub.at_second_2000 7 (Stub.processor ∅)
                (call_getAvroDecoder Stub.int_schema)
                (Stub.getAvroDecoder Stub.int_schema 1%nat)).
Proof.
  pose proof (getDecoder_dispatch
                Stub.GetSchemaByID Stub.getProtobufDecoder Stub.getAvroDecoder
                Stub.at_second_2000 7 (Stub.processor ∅) Stub.int_schema 1%nat) as H.
  destruct H as [H _].
  - split; reflexivity.
  - reflexivity.
  - reflexivity.
  - apply H. right. reflexivity.
Defined.

Lemma Process_unsupported_version_witness :
  ∃ s', stub_Process Stub.at_second_2000 (Stub.message [x01; x00; x00; x00; x07])
                     (Stub.processor ∅) =
        Return ((Stub.message [x01; x00; x00; x00; x07],
                 ([], Some "serialization format version number 1 not supported"%string)),
                s')
        ∧ calls s' = [].
Proof.
  destruct (Process_unsupported_version
              Stub.GetSchemaByID Stub.getProtobufDecoder Stub.getAvroDecoder
              Stub.at_second_2000 (Stub.message [x01; x00; x00; x00; x07])
              (Stub.processor ∅) (mkSlice [x01; x00; x00; x00; x07] []) x01)
    as [_ (s' & Hrun & Hcalls & _)].
  - reflexivity.
  - reflexivity.
  - discriminate.
  - exists s'. split; [exact Hrun|exact Hcalls].
Defined.

Lemma Process_mutation_order_witness :
  ∃ s', stub_Process Stub.at_second_2000 (Stub.message [x00; x00; x00; x00; x07])
                     (Stub.processor ∅) =
        Return ((SetBytes (mkSlice [] []) (Stub.message [x00; x00; x00; x00; x07]),
                 ([], Some "short buffer"%string)), s').
Proof.
  pose proof (Process_mutation_order
                Stub.GetSchemaByID Stub.getProtobufDecoder Stub.getAvroDecoder
                Stub.at_second_2000 (Stub.message [x00; x00; x00; x00; x07])
                (Stub.processor ∅) (mkSlice [x00; x00; x00; x00; x07] []) eq_refl)
    as (_ & _ & H).
  edestruct (H 7 (mkSlice [] []) Stub.decode) as (Hrun & _).
  - reflexivity.
  - reflexivity.
  - reflexivity.
  - eexists. exact Hrun.
Defined.

Lemma Close_clears_or_reports_witness :
  ∃ s1, Close None [7] (Stub.processor {[7 := mkCached 100 (Some Stub.decode)]}) =
        Return (None, s1)
        ∧ schemas s1 = ∅.
Proof.
  destruct (Close_clears_or_reports None [7]
              (Stub.processor {[7 := mkCached 100 (Some Stub.decode)]}))
    as (s1 & Hrun & Hempty & _).
  - reflexivity.
  - unfold visits. simpl. rewrite map_to_list_singleton. reflexivity.
  - exists s1. split; [exact Hrun|]. by apply Hempty.
Defined.

(** Entries 1 and 2 are stale when the first pass scans them; a caller hits
    entry 2 before the second pass. *)
Lemma clearExpired_removes_stale_witness :
  ∃ s3, clearExpired Stub.at_second_2000 [3; 2; 1]
          (stub_getDecoder Stub.at_second_2000 2;; mret ())
          (Stub.processor Stub.three_entries) = Return ((), s3)
        ∧ schemas s3 !! 1 = None
        ∧ schemas s3 !! 2 = Some (mkCached 2000 (Some Stub.decode))
        ∧ schemas s3 !! 3 = Some (mkCached 5000 (Some Stub.decode)).
Proof.
  destruct (clearExpired_removes_stale Stub.at_second_2000 [3; 2; 1]
              (stub_getDecoder Stub.at_second_2000 2;; mret ())
              (Stub.processor Stub.three_entries)
              (set_schemas (alter (λ c, mkCached 2000 (decoder c)) 2)
                           (Stub.processor Stub.three_entries)))
    as (s3 & Hrun & _ & _ & Hm & _).
  - reflexivity.
  - unfold visits. vm_compute. reflexivity.
  - reflexivity.
  - reflexivity.
  - intros k Hst. simpl in *.
    destruct (Stub.three_entries !! k) as [v|] eqn:E; [|done].
    destruct (decide (k = 2)) as [->|Hne].
    + rewrite lookup_alter_eq, E. by eexists.
    + rewrite lookup_alter_ne, E by done. by eexists.
  - exists s3. split; [exact Hrun|]. rewrite !Hm. split; [|split]; reflexivity.
Defined.

(** The schedule of the stub run through: the three callers have returned
    and identifier 7 has been fetched once. *)
Lemma getDecoder_single_flight_witness :
  ∃ p, run_schedule Stub.GetSchemaByID Stub.getProtobufDecoder Stub.getAvroDecoder
         Stub.schedule (mkPool (Stub.processor ∅) (enter Stub.callers))
       = Some p
       ∧ Forall (λ it, is_returned it.2 = true) (threads p)
       ∧ fetches 7 (shared p) = 1%nat.
Proof.
  destruct (run_schedule Stub.GetSchemaByID Stub.getProtobufDecoder Stub.getAvroDecoder
              Stub.schedule (mkPool (Stub.processor ∅) (enter Stub.callers)))
    as [p|] eqn:Hrun; [|vm_compute in Hrun; discriminate].
  exists p. split; [reflexivity|].
  assert (Hall : Forall (λ it, is_returned it.2 = true) (threads p)).
  { vm_compute in Hrun. injection Hrun as <-. repeat constructor. }
  split; [exact Hall|].
  destruct (getDecoder_single_flight
              Stub.GetSchemaByID Stub.getProtobufDecoder Stub.getAvroDecoder
              7 Stub.callers (length Stub.schedule) (Stub.processor ∅) p)
    as (_ & _ & _ & Hdone & _).
  - intros reg. exists Stub.int_schema, (S reg). split; [reflexivity|].
    right. split; [by right|]. intros reg'. by exists Stub.decode, reg'.
  - split; reflexivity.
  - reflexivity.
  - by apply run_schedule_nsteps.
  - apply Hdone; [|exact Hall]. by left.
Defined.

(** C2. The eviction does not always get to its re-check. The cache holds
    entries 1 and 2, last used at second 100, and entry 3, last used at second
    5000; [clearExpired] runs at second 2000, and its first pass gathers 1 and
    2. A [Close] with a live context takes [cacheMut] between the [RUnlock] of
    the first pass and the [Lock] of the second and empties the map. In the
    second pass [s.schemas[k]] is then [nil], the re-check reads
    [lastUsedUnixSeconds] through it, and [clearExpired] panics instead of
    returning with nothing left to remove. *)
Example clearExpired_Close_between_passes_panics :
  clearExpired Stub.at_second_2000 [3; 2; 1] (Close None [3; 2; 1];; mret ())
    (Stub.processor Stub.three_entries) =
  Panic nil_pointer_dereference.
Proof. vm_compute. reflexivity. Qed.

(** The end-to-end run of the stub: identifier 7, one payload byte. The
    schema is fetched and cached, the message keeps the payload as its bytes
    and gets its document. *)
Example Process_decodes :
  match stub_Process Stub.at_second_2000
          (Stub.message [x00; x00; x00; x00; x07; x54]) (Stub.processor ∅) with
  | Return ((msg, (batch, err)), s') =>
    msg = mkMessage (mkSlice [x54] [], None) (Some "42"%string)
    ∧ batch = [msg] ∧ err = None
    ∧ schemas s' !! 7 = Some (mkCached 2000 (Some Stub.decode))
    ∧ calls s' = [call_getAvroDecoder Stub.int_schema; call_GetSchemaByID 7]
  | _ => False
  end.
Proof. vm_compute. repeat split; reflexivity. Qed.

(** Two callers for an identifier that the registry does not know: nothing
    is cached for it, so each of them fetches in its turn. *)
Example unknown_identifier_fetched_by_each_caller :
  (λ p, (threads p, fetches 9 (shared p))) <$>
    run_schedule Stub.GetSchemaByID Stub.getProtobufDecoder Stub.getAvroDecoder
      ((λ i, (i, Stub.at_second_2000)) <$>
         [0; 1; 0; 1; 0; 1; 0; 0; 0; 0; 0; 0; 1; 1; 1; 1; 1; 1]%nat)
      (mkPool (Stub.processor ∅) (enter [9; 9]))
  = Some ([(9, returned (None, Some "schema not found"%string));
           (9, returned (None, Some "schema not found"%string))], 2%nat).
Proof. vm_compute. reflexivity. Qed.

(** * Further properties *)

(** ** The decoder cache, call by call *)

Section CacheCalls.

Context {Registry : Type}.
Context (GetSchemaByID : Z → Registry → (SchemaInfo * option error) * Registry).
Context (getProtobufDecoder getAvroDecoder :
  SchemaInfo → Registry → (schemaDecoder * option error) * Registry).

#[local] Abbreviation State := (schemaRegistryDecoder Registry).
#[local] Abbreviation getDecoder' :=
  (getDecoder GetSchemaByID getProtobufDecoder getAvroDecoder).
#[local] Abbreviation Process' :=
  (Process GetSchemaByID getProtobufDecoder getAvroDecoder).

Implicit Types (s : State).

(** The three ways a call of [getDecoder] on an idle processor ends: a hit,
    a miss whose resolution fails, a miss whose resolution succeeds. *)
Lemma getDecoder_cases (now : Time) (id : Z) s :
  idle s →
  (∃ c, schemas s !! id = Some c
        ∧ getDecoder' now id s =
          Return ((decoder c, None),
                  set_schemas (alter (λ c, mkCached (time_Unix now) (decoder c)) id) s))
  ∨ (schemas s !! id = None
     ∧ ∃ e s', getDecoder' now id s = Return ((None, Some e), s')
               ∧ schemas s' = schemas s)
  ∨ (schemas s !! id = None
     ∧ ∃ d s', getDecoder' now id s = Return ((d, None), s')
               ∧ schemas s' = <[id := mkCached (time_Unix now) d]> (schemas s)).
Proof.
  intros Hidle.
  destruct (schemas s !! id) as [c|] eqn:Hc.
  { left. exists c. split; [done|]. by apply getDecoder_hit. }
  right.
  destruct (GetSchemaByID id (client s)) as [[info [e|]] reg1] eqn:Hf.
  { left. split; [done|]. eexists _, _. split; [by eapply getDecoder_fetch_error|done]. }
  rewrite (getDecoder_fetched GetSchemaByID getProtobufDecoder getAvroDecoder
             now id s info reg1 Hidle Hc Hf).
  unfold built.
  destruct (decide (info_Type info = "PROTOBUF")).
  - destruct (getProtobufDecoder info reg1) as [[d [e2|]] reg2].
    + left. split; [done|]. by eexists _, _.
    + right. split; [done|]. by eexists _, _.
  - destruct (decide (info_Type info = "" ∨ info_Type info = "AVRO")).
    + destruct (getAvroDecoder info reg1) as [[d [e2|]] reg2].
      * left. split; [done|]. by eexists _, _.
      * right. split; [done|]. by eexists _, _.
    + left. split; [done|]. by eexists _, _.
Qed.

(** What every call of [getDecoder] on an idle processor keeps: it returns,
    the locks are free again, the shutdown signal is as it was, and the record
    of calls has only grown. *)
Lemma getDecoder_keeps (now : Time) (id : Z) s :
  idle s →
  ∃ r s', getDecoder' now id s = Return (r, s')
          ∧ idle s' ∧ shutSig s' = shutSig s
          ∧ ∃ made, calls s' = made ++ calls s.
Proof.
  intros Hidle.
  destruct (schemas s !! id) as [c|] eqn:Hc.
  { rewrite (getDecoder_hit GetSchemaByID getProtobufDecoder getAvroDecoder
               now id s c Hidle Hc).
    eexists _, _. split; [done|]. destruct Hidle. split; [by split|].
    split; [done|]. by exists []. }
  destruct (GetSchemaByID id (client s)) as [[info [e|]] reg1] eqn:Hf.
  { rewrite (getDecoder_fetch_error GetSchemaByID getProtobufDecoder getAvroDecoder
               now id s info e reg1 Hidle Hc Hf).
    eexists _, _. split; [done|]. destruct Hidle. split; [by split|].
    split; [done|]. by exists [call_GetSchemaByID id]. }
  rewrite (getDecoder_fetched GetSchemaByID getProtobufDecoder getAvroDecoder
             now id s info reg1 Hidle Hc Hf).
  destruct Hidle as [H1 H2]. unfold built, fetched.
  destruct (decide (info_Type info = "PROTOBUF")).
  - destruct (getProtobufDecoder info reg1) as [[d [e2|]] reg2];
      eexists _, _; (split; [done|]); (split; [by split|]); (split; [done|]);
      by exists [call_getProtobufDecoder info; call_GetSchemaByID id].
  - destruct (decide (info_Type info = "" ∨ info_Type info = "AVRO")).
    + destruct (getAvroDecoder info reg1) as [[d [e2|]] reg2];
        eexists _, _; (split; [done|]); (split; [by split|]); (split; [done|]);
        by exists [call_getAvroDecoder info; call_GetSchemaByID id].
    + eexists _, _. split; [done|]. split; [by split|]. split; [done|].
      by exists [call_GetSchemaByID id].
Qed.

(** X1. A hit: when the identifier is cached, [getDecoder] returns the cached
    decoder without an error and without any call to the registry or to a
    builder; it sets the entry's time stamp to the clock reading, keeps its
    decoder, and leaves every other entry as it was. *)
Theorem getDecoder_hit_refreshes (now : Time) (id : Z) s (c : cachedSchemaDecoder) :
  idle s →
  schemas s !! id = Some c →
  ∃ s', getDecoder' now id s = Return ((decoder c, None), s')
        ∧ schemas s' !! id = Some (mkCached (time_Unix now) (decoder c))
        ∧ (∀ k, k ≠ id → schemas s' !! k = schemas s !! k)
        ∧ calls s' = calls s ∧ client s' = client s.
Proof.
  intros Hidle Hc.
  rewrite (getDecoder_hit GetSchemaByID getProtobufDecoder getAvroDecoder
             now id s c Hidle Hc).
  eexists. split; [done|]. simpl. split; [|split; [|done]].
  - by rewrite lookup_alter_eq, Hc.
  - intros k Hk. by rewrite lookup_alter_ne.
Qed.


(** X3. [getDecoder] touches one entry only: whatever the outcome of a call
    for [id], the entries under the other identifiers are as they were, and
    no entry is ever removed. *)
Theorem getDecoder_frame (now : Time) (id : Z) s s' r :
  idle s →
  getDecoder' now id s = Return (r, s') →
  (∀ k, k ≠ id → schemas s' !! k = schemas s !! k)
  ∧ (∀ k, is_Some (schemas s !! k) → is_Some (schemas s' !! k)).
Proof.
  intros Hidle Hrun.
  assert (Hother : ∀ k, k ≠ id → schemas s' !! k = schemas s !! k).
  { intros k Hk.
    destruct (getDecoder_cases now id s Hidle)
      as [(c & Hc & Hhit)|[(Hc & e & s1 & Hfail & Hsch)|(Hc & d1 & s1 & Hok & Hsch)]].
    - rewrite Hrun in Hhit. injection Hhit as -> ->. simpl. by rewrite lookup_alter_ne.
    - rewrite Hrun in Hfail. injection Hfail as -> ->. by rewrite Hsch.
    - rewrite Hrun in Hok. injection Hok as -> ->. rewrite Hsch.
      by rewrite lookup_insert_ne. }
  split; [exact Hother|].
  intros k Hk. destruct (decide (k = id)) as [->|Hne]; [|by rewrite Hother].
  destruct (getDecoder_cases now id s Hidle)
    as [(c & Hc & Hhit)|[(Hc & e & s1 & Hfail & Hsch)|(Hc & d1 & s1 & Hok & Hsch)]].
  - rewrite Hrun in Hhit. injection Hhit as -> ->. simpl.
    rewrite lookup_alter_eq, Hc. by eexists.
  - rewrite Hc in Hk. by destruct Hk.
  - rewrite Hc in Hk. by destruct Hk.
Qed.

(** X4. Every path through [getDecoder] releases the locks it takes: on an
    idle processor the call returns, with the locks free again; it returns a
    decoder or an error, never both, and it does not raise the shutdown
    signal. *)
Theorem getDecoder_releases_locks (now : Time) (id : Z) s :
  idle s →
  ∃ d err s', getDecoder' now id s = Return ((d, err), s')
              ∧ idle s'
              ∧ (is_Some err → d = None)
              ∧ shutSig s' = shutSig s.
Proof.
  intros Hidle.
  destruct (getDecoder_keeps now id s Hidle) as ([d err] & s' & Hrun & Hidle' & Hsig & _).
  exists d, err, s'. split; [exact Hrun|]. split; [exact Hidle'|]. split; [|exact Hsig].
  intros [e ->].
  destruct (getDecoder_cases now id s Hidle)
    as [(c & Hc & Hhit)|[(Hc & e1 & s1 & Hfail & _)|(Hc & d1 & s1 & Hok & _)]].
  - rewrite Hrun in Hhit. discriminate.
  - rewrite Hrun in Hfail. by injection Hfail as -> _ _.
  - rewrite Hrun in Hok. discriminate.
Qed.

(** ** The decode orchestrator, path by path *)

(** [Process] on a message with bytes, in terms of what [extractID] and
    [getDecoder] do. *)
Lemma Process_run (now : Time) (msg : Message) s b :
  AsBytes msg = (b, None) →
  Process' now msg s =
  match extractID b with
  | Return (id, remaining, Some e) => Return ((msg, ([], Some e)), s)
  | Return (id, remaining, None) =>
    match getDecoder' now id s with
    | Return ((_, Some e), s') => Return ((msg, ([], Some e)), s')
    | Return ((Some f, None), s') =>
      Return (match f (SetBytes remaining msg) with
              | (msg', Some e) => (msg', ([], Some e))
              | (msg', None) => (msg', ([msg'], None))
              end, s')
    | Return ((None, None), s') => Panic nil_pointer_dereference
    | Panic p => Panic p
    | Blocked => Blocked
    end
  | Panic p => Panic p
  | Blocked => Blocked
  end.
Proof.
  intros Hb. unfold Process. rewrite Hb.
  unfold mbind at 1, M_bind at 1, lift at 1.
  destruct (extractID b) as [[[id remaining] [e|]]|p|]; try reflexivity.
  unfold mbind at 1, M_bind at 1.
  destruct (getDecoder' now id s) as [[[[f|] [e1|]] s1]|p1|]; try reflexivity.
  unfold call_decoder, mbind, M_bind, mret, M_ret.
  destruct (f (SetBytes remaining msg)) as [msg1 [e2|]]; reflexivity.
Qed.

(** X5. One message in, one message or one error out: whenever [Process]
    returns, either the error is [nil] and the batch holds exactly the
    message, in the state the call left it in, or there is an error and the
    batch is [nil]. *)
Theorem Process_one_message_or_error (now : Time) (msg msg' : Message) s s'
    (batch : list Message) (err : option error) :
  Process' now msg s = Return ((msg', (batch, err)), s') →
  (err = None ∧ batch = [msg']) ∨ (is_Some err ∧ batch = []).
Proof.
  intros Hrun.
  destruct (AsBytes msg) as [b [e|]] eqn:Hb.
  { unfold Process in Hrun. rewrite Hb in Hrun. injection Hrun as <- <- <- <-.
    right. by split. }
  rewrite (Process_run now msg s b Hb) in Hrun.
  destruct (extractID b) as [[[id remaining] [e|]]|p|]; try discriminate.
  { injection Hrun as <- <- <- <-. right. by split. }
  destruct (getDecoder' now id s) as [[[[f|] [e1|]] s1]|p1|]; try discriminate.
  - injection Hrun as <- <- <- <-. right. by split.
  - destruct (f (SetBytes remaining msg)) as [m1 [e2|]];
      injection Hrun as <- <- <- <-; [right|left]; by split.
  - injection Hrun as <- <- <- <-. right. by split.
Qed.

(** X6. A message of one to four bytes that starts with 0 does not get an
    error: [Process] panics on it with the slice bounds out of range of
    [extractID], before any lock is taken, whatever the state of the
    processor. Which slice expression panics depends on the capacity of the
    bytes: [b[1:5]] when the capacity is below 5, and [b[5:]] otherwise,
    where [b[1:5]] is within the capacity and 5 is beyond the length. *)
Theorem Process_short_envelope_panics (now : Time) (msg : Message) s b :
  AsBytes msg = (b, None) →
  (1 ≤ len b ≤ 4)%nat →
  elems b !! 0%nat = Some x00 →
  Process' now msg s =
  Panic (if decide (cap b < 5)%nat
         then slice_bounds_out_of_range_cap 5 (cap b)
         else slice_bounds_out_of_range_low 5 (len b)).
Proof.
  intros Hb Hlen H0.
  rewrite (Process_run now msg s b Hb).
  by rewrite (extractID_short_panics b Hlen H0).
Qed.

(** X7. A message for a cached schema is decoded without the registry: with
    a well-formed envelope whose identifier is cached, [Process] makes no
    call to the registry or to a builder, refreshes the entry's time stamp,
    and runs the cached decoder on the message with its bytes replaced by the
    payload; the result is the decoded message alone in the batch, or the
    decoder's error. *)
Theorem Process_cached (now : Time) (msg : Message) s b (c : cachedSchemaDecoder)
    (f : Message → Message * option error) :
  idle s →
  AsBytes msg = (b, None) →
  (5 ≤ len b)%nat →
  elems b !! 0%nat = Some x00 →
  schemas s !! envelope_id (elems b) = Some c →
  decoder c = Some f →
  ∃ s', Process' now msg s =
        Return (match f (SetBytes (mkSlice (drop 5 (elems b)) (spare b)) msg) with
                | (msg', Some e) => (msg', ([], Some e))
                | (msg', None) => (msg', ([msg'], None))
                end, s')
        ∧ calls s' = calls s ∧ client s' = client s
        ∧ schemas s' !! envelope_id (elems b) = Some (mkCached (time_Unix now) (Some f)).
Proof.
  intros Hidle Hb Hlen H0 Hc Hf.
  rewrite (Process_run now msg s b Hb).
  rewrite (proj1 (extractID_long b Hlen H0)).
  rewrite (getDecoder_hit GetSchemaByID getProtobufDecoder getAvroDecoder
             now _ s c Hidle Hc).
  rewrite Hf. eexists. split; [reflexivity|]. simpl.
  split; [done|]. split; [done|]. rewrite lookup_alter_eq, Hc. simpl. by rewrite Hf.
Qed.

(** X8. [Process] on an idle processor never waits for a lock and never
    leaves one held: it returns with the locks free, or it panics, and it
    panics in two cases only: the envelope has one to four bytes and starts
    with 0, or the decoder that [getDecoder] returned without an error is
    [nil]. *)
Theorem Process_returns_or_panics (now : Time) (msg : Message) s :
  idle s →
  match Process' now msg s with
  | Return (_, s') => idle s'
  | Panic p =>
    (∃ b, AsBytes msg = (b, None) ∧ (1 ≤ len b ≤ 4)%nat ∧ elems b !! 0%nat = Some x00
          ∧ p = if decide (cap b < 5)%nat
                then slice_bounds_out_of_range_cap 5 (cap b)
                else slice_bounds_out_of_range_low 5 (len b))
    ∨ (p = nil_pointer_dereference
       ∧ ∃ b id remaining s', AsBytes msg = (b, None)
           ∧ extractID b = Return (id, remaining, None)
           ∧ getDecoder' now id s = Return ((None, None), s'))
  | Blocked => False
  end.
Proof.
  intros Hidle.
  destruct (AsBytes msg) as [b [e|]] eqn:Hb.
  { unfold Process. rewrite Hb. exact Hidle. }
  rewrite (Process_run now msg s b Hb).
  destruct (input_cases b) as [H|[(x & Hx & Hne)|[[H1 H2]|[H1 H2]]]].
  - by rewrite (extractID_empty b H).
  - by rewrite (extractID_version b x Hx Hne).
  - rewrite (extractID_short_panics b H1 H2). left. by exists b.
  - pose proof (proj1 (extractID_long b H1 H2)) as Hext. rewrite Hext.
    destruct (getDecoder_keeps now (envelope_id (elems b)) s Hidle)
      as ([d err] & s' & Hrun & Hidle' & _).
    rewrite Hrun. destruct d as [f|], err as [e|]; try exact Hidle'.
    right. split; [done|]. by eexists b, _, _, s'.
Qed.

(** ** Eviction and shutdown, run on their own and between calls *)

(** [clearExpired] with nothing running between its passes. *)
Lemma clearExpired_alone (now : Time) (order : list Z) s :
  cache_unlocked s →
  visits order (schemas s) →
  clearExpired now order (mret ()) s =
  Return ((), set_schemas (filter (λ kv, targetTime_of now ≤ lastUsedUnixSeconds kv.2)) s).
Proof.
  intros Hfree Hvis.
  destruct (clearExpired_run now order (mret ()) s s Hfree Hvis eq_refl Hfree)
    as (m' & Hrun & Hm').
  { intros k Hk. destruct (schemas s !! k); [by eexists|done]. }
  rewrite Hrun. do 2 f_equal. unfold set_schemas. f_equal.
  apply map_eq. intros k. rewrite Hm'.
  destruct (schemas s !! k) as [v|] eqn:Hk.
  - destruct (decide (lastUsedUnixSeconds v < targetTime_of now)) as [Hst|Hst].
    + rewrite decide_True by (split; exact Hst). symmetry.
      apply map_lookup_filter_None. right. intros v' Hv'. simpl.
      rewrite Hk in Hv'. injection Hv' as <-. lia.
    + rewrite decide_False by (intros [H _]; exact (Hst H)). symmetry.
      apply map_lookup_filter_Some. split; [done|]. simpl. lia.
  - rewrite decide_False by (intros [H _]; exact H). symmetry.
    apply map_lookup_filter_None. by left.
Qed.

(** X9. [clearExpired] run on its own keeps the entries used at or after
    the threshold, ten minutes before the clock reading in whole seconds, and
    removes the others, in whatever order the map is visited; it leaves the
    client, the record of calls, the signal and the locks as they were, and
    running it again at the same clock reading changes nothing. *)
Theorem clearExpired_keeps_fresh (now : Time) (order : list Z) s :
  cache_unlocked s →
  visits order (schemas s) →
  ∃ s', clearExpired now order (mret ()) s = Return ((), s')
        ∧ schemas s' =
          filter (λ kv, time_Unix now - 600 ≤ lastUsedUnixSeconds kv.2) (schemas s)
        ∧ client s' = client s ∧ calls s' = calls s ∧ shutSig s' = shutSig s
        ∧ cacheMut s' = cacheMut s ∧ requestMut s' = requestMut s
        ∧ ∀ order', visits order' (schemas s') →
                    clearExpired now order' (mret ()) s' = Return ((), s').
Proof.
  intros Hfree Hvis.
  rewrite (clearExpired_alone now order s Hfree Hvis).
  eexists. split; [reflexivity|]. simpl.
  rewrite <- targetTime_of_Unix.
  split; [done|]. do 5 (split; [done|]).
  intros order' Hvis'.
  rewrite clearExpired_alone; [|exact Hfree|exact Hvis'].
  do 2 f_equal. destruct s as [cl sch cm rm sig cs]. unfold set_schemas. simpl.
  f_equal. apply map_eq. intros k.
  destruct (filter (λ kv, targetTime_of now ≤ lastUsedUnixSeconds kv.2) sch !! k)
    as [v|] eqn:Hk.
  - apply map_lookup_filter_Some. split; [done|].
    by apply map_lookup_filter_Some in Hk as [_ ?].
  - apply map_lookup_filter_None. by left.
Qed.

(** X10. A decoder used within the last ten minutes is not evicted: after
    [getDecoder] has returned a decoder at clock reading [now0], a
    [clearExpired] at a reading no more than ten minutes later keeps the
    entry, and the next [getDecoder] for the identifier is a hit that makes
    no call to the registry or to a builder. *)
Theorem recently_used_survives (now0 now : Time) (id : Z) (order : list Z)
    s s1 (d : schemaDecoder) :
  idle s →
  getDecoder' now0 id s = Return ((d, None), s1) →
  now - now0 ≤ schemaStaleAfter →
  visits order (schemas s1) →
  ∃ s2, clearExpired now order (mret ()) s1 = Return ((), s2)
        ∧ schemas s2 !! id = Some (mkCached (time_Unix now0) d)
        ∧ ∃ s3, getDecoder' now id s2 = Return ((d, None), s3)
                ∧ calls s3 = calls s1 ∧ client s3 = client s1.
Proof.
  intros Hidle Hrun Hnear Hvis.
  assert (Hidle1 : idle s1).
  { destruct (getDecoder_keeps now0 id s Hidle) as (r & s' & Hrun' & Hi & _).
    rewrite Hrun in Hrun'. by injection Hrun' as <- <-. }
  assert (Hentry : schemas s1 !! id = Some (mkCached (time_Unix now0) d)).
  { destruct (getDecoder_cases now0 id s Hidle)
      as [(c & Hc & Hhit)|[(Hc & e & s' & Hfail & _)|(Hc & d1 & s' & Hok & Hsch)]].
    - rewrite Hrun in Hhit. injection Hhit as -> ->. simpl.
      by rewrite lookup_alter_eq, Hc.
    - rewrite Hrun in Hfail. discriminate.
    - rewrite Hrun in Hok. injection Hok as -> ->. rewrite Hsch.
      apply lookup_insert_eq. }
  rewrite (clearExpired_alone now order s1 (proj1 Hidle1) Hvis).
  set (s2 := set_schemas
               (filter (λ kv, targetTime_of now ≤ lastUsedUnixSeconds kv.2)) s1).
  exists s2. split; [reflexivity|].
  assert (Hidle2 : idle s2) by (destruct Hidle1; by split).
  assert (Hkept : schemas s2 !! id = Some (mkCached (time_Unix now0) d)).
  { simpl. apply map_lookup_filter_Some. split; [done|]. simpl.
    rewrite targetTime_of_Unix. unfold time_Unix.
    unfold schemaStaleAfter, time_Minute, time_Second in Hnear.
    assert (now `div` 1000000000 ≤ (now0 + 600 * 1000000000) `div` 1000000000)
      by (apply Z.div_le_mono; lia).
    rewrite Z.div_add in H by lia. lia. }
  split; [exact Hkept|].
  rewrite (getDecoder_hit GetSchemaByID getProtobufDecoder getAvroDecoder now id s2 _
             Hidle2 Hkept).
  by eexists.
Qed.


(** [Close] in full: the processor it leaves. *)
Lemma Close_state (ctx_Err : option error) (order : list Z) s :
  cache_unlocked s →
  visits order (schemas s) →
  Close ctx_Err order s =
  Return (ctx_Err,
          mkDecoder (client s)
                    (match ctx_Err with None => ∅ | Some _ => schemas s end)
                    (mkRWMutex 0 false) (requestMut s) true (calls s)).
Proof.
  intros Hfree Hvis. unfold cache_unlocked in Hfree.
  destruct s as [cl sch cm rm sig cs]. simpl in *. subst cm.
  destruct ctx_Err as [e|]; [reflexivity|].
  destruct (delete_each_run order
              (mkDecoder cl sch (mkRWMutex 0 true) rm true cs)) as (m' & Hrun & Hm').
  assert (Hempty : m' = ∅).
  { apply map_eq. intros k. rewrite Hm', lookup_empty. simpl.
    case_decide as Hk; [done|].
    destruct (sch !! k) eqn:E; [|done]. exfalso. apply Hk.
    apply (visits_elem_of order sch k Hvis). by eexists. }
  subst m'.
  unfold Close, range_schemas. run_code.
  rewrite range_schemas_keys.
  2:{ intros k Hk. by apply (visits_elem_of order sch k Hvis). }
  rewrite Hrun. reflexivity.
Qed.

(** X12. [Close] raises the shutdown signal before it looks at the context:
    the signal is raised also when the context has expired and the cache is
    left as it was. Under either context [Close] leaves the client, the record
    of calls and [requestMut] alone and releases [cacheMut]. *)
Theorem Close_signals_first (ctx_Err : option error) (order : list Z) s :
  cache_unlocked s →
  visits order (schemas s) →
  ∃ s1, Close ctx_Err order s = Return (ctx_Err, s1)
        ∧ shutSig s1 = true
        ∧ client s1 = client s ∧ calls s1 = calls s
        ∧ requestMut s1 = requestMut s ∧ cacheMut s1 = cacheMut s.
Proof.
  intros Hfree Hvis. rewrite (Close_state ctx_Err order s Hfree Hvis).
  eexists. split; [reflexivity|]. simpl. by rewrite Hfree.
Qed.

(** X13. [Close] does not disable the processor: after a [Close] that has
    emptied the cache, a call of [getDecoder] runs as on a new processor; it
    returns, it fetches the schema, and when resolution succeeds the decoder
    is in the cache again. *)
Theorem getDecoder_after_Close (order : list Z) s :
  idle s →
  visits order (schemas s) →
  ∃ s1, Close None order s = Return (None, s1)
        ∧ schemas s1 = ∅
        ∧ ∀ now id, ∃ d err s2,
            getDecoder' now id s1 = Return ((d, err), s2)
            ∧ fetches id s2 = S (fetches id s)
            ∧ (err = None → schemas s2 !! id = Some (mkCached (time_Unix now) d)).
Proof.
  intros Hidle Hvis. rewrite (Close_state None order s (proj1 Hidle) Hvis).
  set (s1 := mkDecoder (client s) ∅ (mkRWMutex 0 false) (requestMut s) true (calls s)).
  exists s1. split; [reflexivity|]. split; [reflexivity|].
  assert (Hidle1 : idle s1) by (destruct Hidle; by split).
  intros now id.
  destruct (getDecoder_miss_fetches GetSchemaByID getProtobufDecoder getAvroDecoder
              now id s1 Hidle1 (lookup_empty id)) as ([d err] & s2 & Hrun & Hn & _).
  exists d, err, s2. split; [exact Hrun|]. split; [exact Hn|].
  intros ->.
  destruct (getDecoder_cases now id s1 Hidle1)
    as [(c & Hc & Hhit)|[(Hc & e & s' & Hfail & _)|(Hc & d1 & s' & Hok & Hsch)]].
  - simpl in Hc. by rewrite lookup_empty in Hc.
  - rewrite Hrun in Hfail. discriminate.
  - rewrite Hrun in Hok. injection Hok as -> ->. rewrite Hsch. apply lookup_insert_eq.
Qed.

(** [clearExpired] as its two passes around what runs in between. *)
Lemma clearExpired_passes (now : Time) (order : list Z) (interleaved : M State ()) s :
  cache_unlocked s →
  clearExpired now order interleaved s =
  match interleaved s with
  | Return (_, s2) =>
    match filter (λ k, stale (targetTime_of now) (schemas s !! k)) order with
    | [] => Return ((), s2)
    | k :: rest =>
      (cacheMut_Lock;;
       remove_stale (targetTime_of now) (k :: rest);;
       cacheMut_Unlock) s2
    end
  | Panic p => Panic p
  | Blocked => Blocked
  end.
Proof.
  intros Hfree. unfold cache_unlocked in Hfree.
  destruct s as [cl sch cm rm sig cs]. simpl in *. subst cm.
  unfold clearExpired, range_schemas.
  unfold mbind at 1, M_bind at 1, cacheMut_RLock at 1, set_cacheMut at 1. simpl.
  unfold mbind at 1, M_bind at 1.
  rewrite gather_targets_filter. simpl.
  unfold mbind at 1, M_bind at 1, cacheMut_RUnlock at 1, set_cacheMut at 1. simpl.
  unfold mbind at 1, M_bind at 1.
  destruct (interleaved _) as [[[] s2]|p|]; try reflexivity.
  destruct (filter _ order) as [|k rest]; reflexivity.
Qed.

(** X14. A [Close] between the two passes crashes the eviction: when the
    first pass has gathered a stale entry and [Close] empties the cache before
    the second pass, the second pass reads the time stamp through the [nil]
    that [s.schemas[k]] gives, and [clearExpired] panics with a nil pointer
    dereference. *)
Theorem clearExpired_panics_after_Close (now : Time) (order order' : list Z) s (k : Z) :
  cache_unlocked s →
  visits order (schemas s) →
  visits order' (schemas s) →
  stale (targetTime_of now) (schemas s !! k) →
  clearExpired now order (Close None order';; mret ()) s = Panic nil_pointer_dereference.
Proof.
  intros Hfree Hvis Hvis' Hstale.
  rewrite (clearExpired_passes now order _ s Hfree).
  unfold mbind at 1, M_bind at 1.
  rewrite (Close_state None order' s Hfree Hvis').
  unfold mret at 1, M_ret at 1.
  assert (Hin : k ∈ filter (λ k, stale (targetTime_of now) (schemas s !! k)) order).
  { apply list_elem_of_filter. split; [done|].
    apply (visits_elem_of order (schemas s) k Hvis).
    destruct (schemas s !! k); [by eexists|done]. }
  destruct (filter _ order) as [|k0 rest]; [by apply elem_of_nil in Hin|].
  reflexivity.
Qed.

(** ** What a call costs the registry *)

(** X19. One call of [getDecoder] makes at most one fetch, of the identifier
    it was called with and of no other, and runs at most one builder, only
    after that fetch: the record of calls after the call is the record before
    it, or that with the fetch added, or that with the fetch and then one
    builder call added; on a hit nothing is added. *)
Theorem getDecoder_calls_at_most_one_fetch (now : Time) (id : Z) s s' r :
  idle s →
  getDecoder' now id s = Return (r, s') →
  (calls s' = calls s
   ∨ calls s' = call_GetSchemaByID id :: calls s
   ∨ ∃ info, calls s' = call_getProtobufDecoder info :: call_GetSchemaByID id :: calls s
             ∨ calls s' = call_getAvroDecoder info :: call_GetSchemaByID id :: calls s)
  ∧ (is_Some (schemas s !! id) → calls s' = calls s)
  ∧ (fetches id s' ≤ S (fetches id s))%nat
  ∧ (∀ k, k ≠ id → fetches k s' = fetches k s).
Proof.
  intros Hidle Hrun.
  assert (Hcalls : (is_Some (schemas s !! id) ∧ calls s' = calls s)
                   ∨ (schemas s !! id = None
                      ∧ (calls s' = call_GetSchemaByID id :: calls s
                         ∨ ∃ info,
                             calls s' = call_getProtobufDecoder info
                                          :: call_GetSchemaByID id :: calls s
                             ∨ calls s' = call_getAvroDecoder info
                                            :: call_GetSchemaByID id :: calls s))).
  { destruct (schemas s !! id) as [c|] eqn:Hc.
    { rewrite (getDecoder_hit GetSchemaByID getProtobufDecoder getAvroDecoder
                 now id s c Hidle Hc) in Hrun.
      injection Hrun as _ <-. left. split; [by eexists|done]. }
    right. split; [done|].
    destruct (GetSchemaByID id (client s)) as [[info [e|]] reg1] eqn:Hf.
    { rewrite (getDecoder_fetch_error GetSchemaByID getProtobufDecoder getAvroDecoder
                 now id s info e reg1 Hidle Hc Hf) in Hrun.
      injection Hrun as _ <-. by left. }
    rewrite (getDecoder_fetched GetSchemaByID getProtobufDecoder getAvroDecoder
               now id s info reg1 Hidle Hc Hf) in Hrun.
    unfold built, fetched in Hrun.
    destruct (decide (info_Type info = "PROTOBUF")).
    - destruct (getProtobufDecoder info reg1) as [[d [e2|]] reg2];
        injection Hrun as _ <-; right; exists info; by left.
    - destruct (decide (info_Type info = "" ∨ info_Type info = "AVRO")).
      + destruct (getAvroDecoder info reg1) as [[d [e2|]] reg2];
          injection Hrun as _ <-; right; exists info; by right.
      + injection Hrun as _ <-. by left. }
  assert (Hfetch : ∀ k, fetches k s' = fetches k s
                        ∨ fetches k s' = (fetches k s + b2n (bool_decide (id = k)))%nat).
  { intros k. destruct Hcalls as [[_ H]|[_ [H|[info [H|H]]]]].
    { left. unfold fetches. by rewrite H. }
    all: right; unfold fetches; rewrite H; rewrite !filter_cons; simpl;
      destruct (bool_decide (id = k)); simpl; lia. }
  split; [|split; [|split]].
  - destruct Hcalls as [[_ H]|[_ H]]; [by left|by right].
  - intros Hsome. destruct Hcalls as [[_ H]|[Hnone _]]; [done|].
    rewrite Hnone in Hsome. by destruct Hsome.
  - destruct (Hfetch id) as [H|H]; rewrite H; [lia|].
    destruct (bool_decide (id = id)); simpl; lia.
  - intros k Hk. destruct (Hfetch k) as [H|H]; [done|]. rewrite H.
    rewrite bool_decide_eq_false_2 by done. simpl. lia.
Qed.

End CacheCalls.

(** ** The identifier codec: ranges and lengths *)

Lemma envelope_id_take (l : list byte) :
  (5 ≤ length l)%nat → envelope_id (take 5 l) = envelope_id l.
Proof.
  intros H. destruct (five_bytes l H) as (b0 & b1 & b2 & b3 & b4 & Hl).
  rewrite Hl. reflexivity.
Qed.

(** X15. When [extractID] returns an identifier, it lies between 0 and
    2^32 - 1; the remainder is five bytes shorter than the input in length and
    in capacity, and the input is its first five bytes followed by the
    remainder; the identifier depends on the first five bytes only. *)
Theorem extractID_result_bounds (b : slice) (id : Z) (remaining : slice) :
  extractID b = Return (id, remaining, None) →
  0 ≤ id < 2 ^ 32
  ∧ (len remaining + 5 = len b)%nat
  ∧ (cap remaining + 5 = cap b)%nat
  ∧ elems b = take 5 (elems b) ++ elems remaining
  ∧ ∀ b', take 5 (elems b') = take 5 (elems b) →
          ∃ remaining', extractID b' = Return (id, remaining', None).
Proof.
  intros Hr.
  destruct (input_cases b) as [H|[(x & Hx & Hne)|[[H1 H2]|[H1 H2]]]].
  - rewrite (extractID_empty b H) in Hr. discriminate.
  - rewrite (extractID_version b x Hx Hne) in Hr. discriminate.
  - rewrite (extractID_short_panics b H1 H2) in Hr. discriminate.
  - rewrite (proj1 (extractID_long b H1 H2)) in Hr. injection Hr as <- <-.
    unfold len, cap in *. simpl.
    split; [apply envelope_id_range|].
    split; [rewrite length_drop; lia|].
    split; [rewrite length_drop; lia|].
    split; [by rewrite take_drop|].
    intros b' Htake.
    assert (Hlen' : (5 ≤ length (elems b'))%nat).
    { apply (f_equal length) in Htake. rewrite !length_take in Htake. lia. }
    assert (H0' : elems b' !! 0%nat = Some x00).
    { rewrite <- (lookup_take_lt (elems b') 5 0) by lia.
      rewrite Htake, lookup_take_lt by lia. done. }
    eexists. rewrite (proj1 (extractID_long b' Hlen' H0')).
    rewrite <- (envelope_id_take (elems b')), Htake, envelope_id_take by done.
    reflexivity.
Qed.

(** ** Calls one after another *)

Section CallSequences.

Context {Registry : Type}.
Context (GetSchemaByID : Z → Registry → (SchemaInfo * option error) * Registry).
Context (getProtobufDecoder getAvroDecoder :
  SchemaInfo → Registry → (schemaDecoder * option error) * Registry).

#[local] Abbreviation State := (schemaRegistryDecoder Registry).
#[local] Abbreviation Process' :=
  (Process GetSchemaByID getProtobufDecoder getAvroDecoder).
#[local] Abbreviation call_step' :=
  (call_step GetSchemaByID getProtobufDecoder getAvroDecoder).

Implicit Types (s : State).

(** What a [Process] that returns keeps. *)
Lemma Process_keeps (now : Time) (msg : Message) s s' r :
  idle s →
  Process' now msg s = Return (r, s') →
  idle s' ∧ shutSig s' = shutSig s.
Proof.
  intros Hidle Hrun.
  destruct (AsBytes msg) as [b [e|]] eqn:Hb.
  { unfold Process in Hrun. rewrite Hb in Hrun. by injection Hrun as _ <-. }
  rewrite (Process_run GetSchemaByID getProtobufDecoder getAvroDecoder now msg s b Hb)
    in Hrun.
  destruct (extractID b) as [[[id remaining] [e|]]|p|]; try discriminate.
  { by injection Hrun as _ <-. }
  destruct (getDecoder_keeps GetSchemaByID getProtobufDecoder getAvroDecoder
              now id s Hidle) as ([d err] & s1 & Hget & Hidle1 & Hsig & _).
  rewrite Hget in Hrun.
  destruct d as [f|], err as [e|]; try discriminate; by injection Hrun as _ <-.
Qed.

Lemma call_step_keeps s s' :
  idle s → call_step' s s' → idle s' ∧ (shutSig s = true → shutSig s' = true).
Proof.
  intros Hidle Hstep.
  destruct Hstep as [now msg s s' r Hrun|now order s s' Hvis Hrun|ctx order s s' r Hvis Hrun].
  - destruct (Process_keeps now msg s s' r Hidle Hrun) as [Hidle' Hsig].
    split; [done|]. by rewrite Hsig.
  - rewrite (clearExpired_alone now order s (proj1 Hidle) Hvis) in Hrun.
    injection Hrun as <-. destruct Hidle. by split.
  - rewrite (Close_state ctx order s (proj1 Hidle) Hvis) in Hrun.
    injection Hrun as _ <-. destruct Hidle. by split.
Qed.

(** X16. No call leaves a lock held. On a processor that started idle, after
    any number of calls of [Process], [clearExpired] and [Close] made one
    after another, in any order and whatever their results, the locks are
    free: the next [Process] does not wait, the next [clearExpired] and the
    next [Close] return. A shutdown signal once raised stays raised. *)
Theorem calls_leave_locks_free s s' :
  idle s →
  rtc call_step' s s' →
  idle s'
  ∧ (shutSig s = true → shutSig s' = true)
  ∧ (∀ now msg, Process' now msg s' ≠ Blocked)
  ∧ (∀ now order, visits order (schemas s') →
       ∃ s'', clearExpired now order (mret ()) s' = Return ((), s''))
  ∧ (∀ ctx_Err order, visits order (schemas s') →
       ∃ s'', Close ctx_Err order s' = Return (ctx_Err, s'')).
Proof.
  intros Hidle Hsteps.
  assert (Hinv : idle s' ∧ (shutSig s = true → shutSig s' = true)).
  { induction Hsteps as [s|s s1 s2 Hstep Hrest IH]; [done|].
    destruct (call_step_keeps s s1 Hidle Hstep) as [Hidle1 Hsig1].
    destruct (IH Hidle1) as [Hidle2 Hsig2]. split; [done|]. auto. }
  destruct Hinv as [Hidle' Hsig]. split; [done|]. split; [done|].
  split; [|split].
  - intros now msg Hblocked.
    destruct (AsBytes msg) as [b [e|]] eqn:Hb.
    { unfold Process in Hblocked. rewrite Hb in Hblocked. discriminate. }
    rewrite (Process_run GetSchemaByID getProtobufDecoder getAvroDecoder now msg s' b Hb)
      in Hblocked.
    destruct (extractID b) as [[[id remaining] [e|]]|p|] eqn:Hext; try discriminate.
    + destruct (getDecoder_keeps GetSchemaByID getProtobufDecoder getAvroDecoder
                  now id s' Hidle') as ([d err] & s1 & Hget & _).
      rewrite Hget in Hblocked. destruct d as [f|], err as [e|]; discriminate.
    + destruct (input_cases b) as [H|[(x & Hx & Hne)|[[H1 H2]|[H1 H2]]]].
      * rewrite (extractID_empty b H) in Hext. discriminate.
      * rewrite (extractID_version b x Hx Hne) in Hext. discriminate.
      * rewrite (extractID_short_panics b H1 H2) in Hext. discriminate.
      * rewrite (proj1 (extractID_long b H1 H2)) in Hext. discriminate.
  - intros now order Hvis.
    rewrite (clearExpired_alone now order s' (proj1 Hidle') Hvis). by eexists.
  - intros ctx order Hvis.
    rewrite (Close_state ctx order s' (proj1 Hidle') Hvis). by eexists.
Qed.

End CallSequences.

(** ** Concurrent callers, whatever the registry answers *)

Section PoolSafety.

Context {Registry : Type}.
Context (GetSchemaByID : Z → Registry → (SchemaInfo * option error) * Registry).
Context (getProtobufDecoder getAvroDecoder :
  SchemaInfo → Registry → (schemaDecoder * option error) * Registry).

#[local] Abbreviation State := (schemaRegistryDecoder Registry).
#[local] Abbreviation thread_step' :=
  (thread_step GetSchemaByID getProtobufDecoder getAvroDecoder).
#[local] Abbreviation pool_step' :=
  (pool_step GetSchemaByID getProtobufDecoder getAvroDecoder).

Implicit Types (ts : list (Z * thread)) (t u : thread) (s : State).

Ltac step_cases H :=
  unfold build_decoder in H;
  unfold mbind, M_bind, mret, M_ret, lift, cacheMut_RLock, cacheMut_RUnlock,
    cacheMut_Lock, cacheMut_Unlock, requestMut_Lock, requestMut_Unlock,
    load_schema, store_lastUsed, store_schema, client_GetSchemaByID, build,
    set_cacheMut, set_requestMut, set_schemas in H;
  simpl in H;
  repeat match type of H with
         | context [GetSchemaByID ?a ?b] =>
           destruct (GetSchemaByID a b) as [[? [?|]] ?] eqn:?; simpl in H
         | context [getProtobufDecoder ?a ?b] =>
           destruct (getProtobufDecoder a b) as [[? [?|]] ?] eqn:?; simpl in H
         | context [getAvroDecoder ?a ?b] =>
           destruct (getAvroDecoder a b) as [[? [?|]] ?] eqn:?; simpl in H
         | context [decide ?P] => destruct (decide P); simpl in H
         end;
  try discriminate H;
  try (injection H as <- <-).

(** A writer of [cacheMut] excludes its readers, step after step. *)
Lemma step_exclusive (now : Time) (id : Z) t t' s s' :
  (writer (cacheMut s) = true → readers (cacheMut s) = 0%nat) →
  thread_step' now id t s = Return (t', s') →
  writer (cacheMut s') = true → readers (cacheMut s') = 0%nat.
Proof.
  intros Hex Hstep.
  destruct s as [cl sch [rd wr] rm sig cs]. simpl in Hex.
  destruct wr, rm, rd;
    destruct t as [| |c|[c|]| | |c|[c|]|info|d|d|d|r|r]; simpl in Hstep;
    step_cases Hstep; simpl; try done; try (intros _; by apply Hex);
    try (intros _; by specialize (Hex eq_refl)).
Qed.

Lemma tally_returned (f : thread → bool) ts :
  (∀ r, f (returned r) = false) →
  Forall (λ it, is_returned it.2 = true) ts →
  tally f ts = 0%nat.
Proof.
  intros Hf Hall. unfold tally. induction Hall as [|[id t] ts Ht Hall IH]; [done|].
  rewrite filter_cons_False; [exact IH|].
  simpl in *. destruct t; try done. rewrite Hf. simpl. tauto.
Qed.

(** The locks along every execution of the pool. *)
Lemma pool_locks (callers : list Z) (k : nat) (s0 : State) (p : pool) :
  idle s0 →
  nsteps pool_step' k (mkPool s0 (enter callers)) p →
  locks_agree (shared p) (threads p)
  ∧ (writer (cacheMut (shared p)) = true → readers (cacheMut (shared p)) = 0%nat)
  ∧ (k + total_steps (threads p) ≤ 13 * length callers)%nat.
Proof.
  intros [Hcache Hreq]. revert p.
  induction k as [|k IH]; intros p Hsteps.
  - inversion Hsteps; subst. simpl. split; [|split].
    + constructor; rewrite tally_enter by done.
      * by rewrite Hcache.
      * by rewrite Hcache.
      * by rewrite Hreq.
    + by rewrite Hcache.
    + rewrite total_steps_enter. lia.
  - apply nsteps_inv_r in Hsteps as (q & Hsteps & Hstep).
    destruct (IH q Hsteps) as (Hlocks & Hex & Hbound).
    destruct Hstep as [q i now id' t t' s' Hi Hstep]. simpl.
    split; [by eapply step_locks|]. split.
    + by eapply step_exclusive.
    + pose proof (thread_step_remaining GetSchemaByID getProtobufDecoder getAvroDecoder
                    now id' t t' _ _ Hstep).
      pose proof (total_steps_insert (threads q) i id' id' t t' Hi). lia.
Qed.

(** X17. Callers of [getDecoder] cannot deadlock and cannot race on the map,
    whatever the registry and the builders answer. From any number of callers
    entering together on an idle processor, under every schedule: at most one
    goroutine is between [cacheMut.Lock] and [Unlock], and while it is there
    no goroutine is between [RLock] and [RUnlock]; at most one goroutine holds
    [requestMut]; no schedule is longer than thirteen steps per caller; while
    a caller has not returned some caller can step; and when all have
    returned the locks are free. *)
Theorem getDecoder_callers_lock_safety (callers : list Z) (k : nat) (s0 : State)
    (p : pool) :
  idle s0 →
  nsteps pool_step' k (mkPool s0 (enter callers)) p →
  (tally holds_write (threads p) ≤ 1)%nat
  ∧ (tally holds_write (threads p) = 1%nat → tally holds_read (threads p) = 0%nat)
  ∧ (tally holds_requestMut (threads p) ≤ 1)%nat
  ∧ (k + total_steps (threads p) ≤ 13 * length callers)%nat
  ∧ (∀ i id t, threads p !! i = Some (id, t) → is_returned t = false →
       ∃ p', pool_step' p p')
  ∧ (Forall (λ it, is_returned it.2 = true) (threads p) → idle (shared p)).
Proof.
  intros Hidle Hsteps.
  destruct (pool_locks callers k s0 p Hidle Hsteps) as (Hlocks & Hex & Hbound).
  pose proof Hlocks as [Hr Hw Hq].
  split; [|split; [|split; [|split; [exact Hbound|split]]]].
  - rewrite Hw. destruct (writer (cacheMut (shared p))); lia.
  - intros Hone. rewrite <- Hr. apply Hex.
    rewrite Hw in Hone. by destruct (writer (cacheMut (shared p))).
  - rewrite Hq. destruct (requestMut (shared p)); lia.
  - intros i id t Hi Ht. by eapply pool_progress.
  - intros Hall.
    rewrite (tally_returned holds_read) in Hr by done.
    rewrite (tally_returned holds_write) in Hw by done.
    rewrite (tally_returned holds_requestMut) in Hq by done.
    destruct (shared p) as [cl sch [rd wr] rm sig cs]. simpl in *. subst rd.
    destruct wr; [lia|]. destruct rm; [lia|]. by split.
Qed.

(** A step of a caller for a cached identifier keeps it on the hit path. *)
Lemma step_hit_path (now : Time) (id : Z) (d : schemaDecoder) t t' s s' :
  (∃ c, schemas s !! id = Some c ∧ decoder c = d) →
  hit_path d t →
  thread_step' now id t s = Return (t', s') →
  hit_path d t'
  ∧ (∃ c, schemas s' !! id = Some c ∧ decoder c = d)
  ∧ fetches id s' = fetches id s.
Proof.
  intros (c & Hc & Hd) Ht Hstep.
  destruct s as [cl sch [rd wr] rm sig cs]. simpl in Hc.
  destruct t as [| |o|o| | |o|o|info|d1|d1|d1|r|r]; simpl in Ht; try done;
    simpl in Hstep.
  - destruct wr; step_cases Hstep. simpl. split; [done|]. split; [by exists c|done].
  - step_cases Hstep. simpl. split; [by exists c|]. split; [by exists c|done].
  - destruct rd; step_cases Hstep. simpl. split; [done|]. split; [by exists c|done].
  - destruct Ht as (c' & -> & Hc'). step_cases Hstep. simpl.
    split; [by rewrite Hc'|]. split; [|done].
    rewrite lookup_alter_eq, Hc. simpl. by eexists.
Qed.

(** X18. Hits do not pass through the single-flight gate. When an identifier
    is cached before the callers enter, then under every schedule, and
    whatever the other callers fetch meanwhile, no caller for that identifier
    ever holds or waits for [requestMut], the identifier is never fetched, its
    entry keeps its decoder, and every such caller that has returned got that
    decoder without an error. *)
Theorem cached_callers_bypass_requestMut (id : Z) (callers : list Z) (k : nat)
    (s0 : State) (p : pool) (c : cachedSchemaDecoder) :
  idle s0 →
  schemas s0 !! id = Some c →
  nsteps pool_step' k (mkPool s0 (enter callers)) p →
  fetches id (shared p) = fetches id s0
  ∧ (∃ c', schemas (shared p) !! id = Some c' ∧ decoder c' = decoder c)
  ∧ ∀ i t, threads p !! i = Some (id, t) →
      holds_requestMut t = false
      ∧ t ≠ at_first_check None
      ∧ ∀ r, t = returned r → r = (decoder c, None).
Proof.
  intros Hidle Hc Hsteps.
  assert (Hinv : fetches id (shared p) = fetches id s0
                 ∧ (∃ c', schemas (shared p) !! id = Some c' ∧ decoder c' = decoder c)
                 ∧ callers_of id (hit_path (decoder c)) (threads p)).
  { clear Hidle. revert p Hsteps. induction k as [|k IH]; intros p Hsteps.
    - inversion Hsteps; subst. simpl. split; [done|]. split; [by exists c|].
      unfold callers_of, enter. apply Forall_fmap, Forall_true. done.
    - apply nsteps_inv_r in Hsteps as (q & Hsteps & Hstep).
      destruct (IH q Hsteps) as (Hn & Hentry & Hall).
      destruct Hstep as [q i now id' t t' s' Hi Hstep]. simpl.
      destruct (decide (id' = id)) as [->|Hne].
      + pose proof (callers_of_lookup id _ _ i t Hall Hi) as Ht.
        destruct (step_hit_path now id (decoder c) t t' _ _ Hentry Ht Hstep)
          as (Ht' & Hentry' & Hn').
        split; [by rewrite Hn'|]. split; [done|]. by apply callers_of_insert.
      + destruct (thread_step_other GetSchemaByID getProtobufDecoder getAvroDecoder
                    now id id' t t' _ _ Hne Hstep) as [Hsch' Hn'].
        split; [by rewrite Hn'|]. split; [by rewrite Hsch'|].
        by apply callers_of_insert. }
  destruct Hinv as (Hn & Hentry & Hall).
  split; [exact Hn|]. split; [exact Hentry|].
  intros i t Hi. pose proof (callers_of_lookup id _ _ i t Hall Hi) as Ht.
  destruct t as [| |o|o| | |o|o|info|d1|d1|d1|r|r]; simpl in Ht; try done.
  - destruct Ht as (c' & -> & _). split; [done|]. split; [done|]. done.
  - split; [done|]. split; [done|]. intros r' Hr. by injection Hr as <-.
Qed.

End PoolSafety.

(** ** The further properties on the registry stub *)

#[local] Abbreviation stub_run_schedule :=
  (run_schedule Stub.GetSchemaByID Stub.getProtobufDecoder Stub.getAvroDecoder).

Lemma getDecoder_hit_refreshes_witness :
  ∃ s', stub_getDecoder Stub.at_second_2000 2 (Stub.processor Stub.three_entries) =
        Return ((Some Stub.decode, None), s')
        ∧ schemas s' !! 2 = Some (mkCached 2000 (Some Stub.decode))
        ∧ calls s' = [].
Proof.
  destruct (getDecoder_hit_refreshes
              Stub.GetSchemaByID Stub.getProtobufDecoder Stub.getAvroDecoder
              Stub.at_second_2000 2 (Stub.processor Stub.three_entries)
              (mkCached 100 (Some Stub.decode)))
    as (s' & Hrun & Hentry & _ & Hcalls & _).
  - split; reflexivity.
  - reflexivity.
  - exists s'. split; [exact Hrun|]. split; [exact Hentry|exact Hcalls].
Defined.


Lemma getDecoder_frame_witness :
  ∃ r s', stub_getDecoder Stub.at_second_2000 7 (Stub.processor Stub.three_entries) =
          Return (r, s')
          ∧ schemas s' !! 1 = Some (mkCached 100 (Some Stub.decode)).
Proof.
  destruct (stub_getDecoder Stub.at_second_2000 7 (Stub.processor Stub.three_entries))
    as [[r s']| |] eqn:Hrun; try (vm_compute in Hrun; discriminate).
  exists r, s'. split; [reflexivity|].
  destruct (getDecoder_frame
              Stub.GetSchemaByID Stub.getProtobufDecoder Stub.getAvroDecoder
              Stub.at_second_2000 7 (Stub.processor Stub.three_entries) s' r)
    as [Hother _].
  - split; reflexivity.
  - exact Hrun.
  - rewrite Hother by discriminate. reflexivity.
Defined.

Lemma getDecoder_releases_locks_witness :
  ∃ d err s', stub_getDecoder Stub.at_second_2000 9 (Stub.processor ∅) =
              Return ((d, err), s')
              ∧ idle s'.
Proof.
  destruct (getDecoder_releases_locks
              Stub.GetSchemaByID Stub.getProtobufDecoder Stub.getAvroDecoder
              Stub.at_second_2000 9 (Stub.processor ∅))
    as (d & err & s' & Hrun & Hidle & _).
  - split; reflexivity.
  - by exists d, err, s'.
Defined.

Lemma Process_one_message_or_error_witness :
  ∃ msg' batch err s',
    stub_Process Stub.at_second_2000 (Stub.message [x00; x00; x00; x00; x07; x54])
                 (Stub.processor ∅) = Return ((msg', (batch, err)), s')
    ∧ ((err = None ∧ batch = [msg']) ∨ (is_Some err ∧ batch = [])).
Proof.
  destruct (stub_Process Stub.at_second_2000
              (Stub.message [x00; x00; x00; x00; x07; x54]) (Stub.processor ∅))
    as [[[msg' [batch err]] s']| |] eqn:Hrun; try (vm_compute in Hrun; discriminate).
  exists msg', batch, err, s'. split; [reflexivity|].
  exact (Process_one_message_or_error
           Stub.GetSchemaByID Stub.getProtobufDecoder Stub.getAvroDecoder
           Stub.at_second_2000 _ msg' (Stub.processor ∅) s' batch err Hrun).
Defined.

Lemma Process_short_envelope_panics_witness :
  stub_Process Stub.at_second_2000 (Stub.message [x00; x01; x02]) (Stub.processor ∅) =
  Panic (slice_bounds_out_of_range_cap 5 3).
Proof.
  apply (Process_short_envelope_panics
           Stub.GetSchemaByID Stub.getProtobufDecoder Stub.getAvroDecoder
           Stub.at_second_2000 (Stub.message [x00; x01; x02]) (Stub.processor ∅)
           (mkSlice [x00; x01; x02] [])).
  - reflexivity.
  - unfold len. simpl. lia.
  - reflexivity.
Defined.

Lemma Process_cached_witness :
  ∃ s', stub_Process Stub.at_second_2000
          (Stub.message [x00; x00; x00; x00; x02; x54])
          (Stub.processor Stub.three_entries) =
        Return ((mkMessage (mkSlice [x54] [], None) (Some "42"%string),
                 ([mkMessage (mkSlice [x54] [], None) (Some "42"%string)], None)), s')
        ∧ calls s' = [].
Proof.
  destruct (Process_cached
              Stub.GetSchemaByID Stub.getProtobufDecoder Stub.getAvroDecoder
              Stub.at_second_2000 (Stub.message [x00; x00; x00; x00; x02; x54])
              (Stub.processor Stub.three_entries)
              (mkSlice [x00; x00; x00; x00; x02; x54] [])
              (mkCached 100 (Some Stub.decode)) Stub.decode)
    as (s' & Hrun & Hcalls & _).
  - split; reflexivity.
  - reflexivity.
  - unfold len. simpl. lia.
  - reflexivity.
  - reflexivity.
  - reflexivity.
  - exists s'. split; [exact Hrun|exact Hcalls].
Defined.

Lemma Process_returns_or_panics_witness :
  stub_Process Stub.at_second_2000 (Stub.message [x00; x00; x00; x00; x09])
               (Stub.processor ∅) ≠ Blocked.
Proof.
  intros Hblocked.
  pose proof (Process_returns_or_panics
                Stub.GetSchemaByID Stub.getProtobufDecoder Stub.getAvroDecoder
                Stub.at_second_2000 (Stub.message [x00; x00; x00; x00; x09])
                (Stub.processor ∅)) as H.
  rewrite Hblocked in H. apply H. split; reflexivity.
Defined.

Lemma clearExpired_keeps_fresh_witness :
  ∃ s', clearExpired Stub.at_second_2000 [3; 2; 1] (mret ())
          (Stub.processor Stub.three_entries) = Return ((), s')
        ∧ schemas s' !! 3 = Some (mkCached 5000 (Some Stub.decode))
        ∧ schemas s' !! 1 = None.
Proof.
  destruct (clearExpired_keeps_fresh Stub.at_second_2000 [3; 2; 1]
              (Stub.processor Stub.three_entries))
    as (s' & Hrun & Hsch & _).
  - reflexivity.
  - unfold visits. vm_compute. reflexivity.
  - exists s'. split; [exact Hrun|]. rewrite Hsch. split; vm_compute; reflexivity.
Defined.

Lemma recently_used_survives_witness :
  ∃ d s1 s2,
    stub_getDecoder Stub.at_second_2000 7 (Stub.processor ∅) = Return ((d, None), s1)
    ∧ clearExpired (Stub.at_second_2000 + 5 * time_Minute) [7] (mret ()) s1 =
      Return ((), s2)
    ∧ schemas s2 !! 7 = Some (mkCached (time_Unix Stub.at_second_2000) d).
Proof.
  destruct (stub_getDecoder Stub.at_second_2000 7 (Stub.processor ∅))
    as [[[d [e|]] s1]| |] eqn:Hrun; try (vm_compute in Hrun; discriminate).
  destruct (recently_used_survives
              Stub.GetSchemaByID Stub.getProtobufDecoder Stub.getAvroDecoder
              Stub.at_second_2000 (Stub.at_second_2000 + 5 * time_Minute) 7 [7]
              (Stub.processor ∅) s1 d)
    as (s2 & Hclear & Hkept & _).
  - split; reflexivity.
  - exact Hrun.
  - vm_compute. discriminate.
  - vm_compute in Hrun. injection Hrun as <- <-. unfold visits. vm_compute. reflexivity.
  - by exists d, s1, s2.
Defined.


Lemma Close_signals_first_witness :
  ∃ s1, Close (Some "context deadline exceeded"%string) [7]
          (Stub.processor {[7 := mkCached 100 (Some Stub.decode)]}) =
        Return (Some "context deadline exceeded"%string, s1)
        ∧ shutSig s1 = true.
Proof.
  destruct (Close_signals_first (Some "context deadline exceeded"%string) [7]
              (Stub.processor {[7 := mkCached 100 (Some Stub.decode)]}))
    as (s1 & Hrun & Hsig & _).
  - reflexivity.
  - unfold visits. simpl. rewrite map_to_list_singleton. reflexivity.
  - by exists s1.
Defined.

Lemma getDecoder_after_Close_witness :
  ∃ s1, Close None [7] (Stub.processor {[7 := mkCached 100 (Some Stub.decode)]}) =
        Return (None, s1)
        ∧ ∃ d err s2, stub_getDecoder Stub.at_second_2000 7 s1 = Return ((d, err), s2)
                      ∧ fetches 7 s2 = 1%nat.
Proof.
  destruct (getDecoder_after_Close
              Stub.GetSchemaByID Stub.getProtobufDecoder Stub.getAvroDecoder [7]
              (Stub.processor {[7 := mkCached 100 (Some Stub.decode)]}))
    as (s1 & Hrun & _ & Hnext).
  - split; reflexivity.
  - unfold visits. simpl. rewrite map_to_list_singleton. reflexivity.
  - exists s1. split; [exact Hrun|].
    destruct (Hnext Stub.at_second_2000 7) as (d & err & s2 & Hget & Hn & _).
    by exists d, err, s2.
Defined.

Lemma clearExpired_panics_after_Close_witness :
  clearExpired Stub.at_second_2000 [3; 2; 1] (Close None [1; 2; 3];; mret ())
    (Stub.processor Stub.three_entries) = Panic nil_pointer_dereference.
Proof.
  apply (clearExpired_panics_after_Close Stub.at_second_2000 [3; 2; 1] [1; 2; 3]
           (Stub.processor Stub.three_entries) 1).
  - reflexivity.
  - unfold visits. vm_compute. reflexivity.
  - unfold visits. vm_compute.
    symmetry. exact (Permutation_rev [3; 2; 1]).
  - vm_compute. reflexivity.
Defined.

Lemma extractID_result_bounds_witness :
  0 ≤ 258 < 2 ^ 32
  ∧ ∃ remaining', extractID (mkSlice [x00; x00; x00; x01; x02] []) =
                  Return (258, remaining', None).
Proof.
  destruct (extractID_result_bounds (mkSlice [x00; x00; x00; x01; x02; x2a] [x00])
              258 (mkSlice [x2a] [x00])) as (Hrange & _ & _ & _ & Hprefix).
  - reflexivity.
  - split; [exact Hrange|]. apply Hprefix. reflexivity.
Defined.

Lemma calls_leave_locks_free_witness :
  ∃ s', Close None [] (Stub.processor ∅) = Return (None, s')
        ∧ idle s'
        ∧ stub_Process Stub.at_second_2000 (Stub.message [x00; x00; x00; x00; x07; x54]) s'
          ≠ Blocked.
Proof.
  destruct (Close None [] (Stub.processor ∅)) as [[r s']| |] eqn:Hrun;
    try (vm_compute in Hrun; discriminate).
  assert (Hr : r = None) by (vm_compute in Hrun; by injection Hrun as <- _).
  subst r. exists s'. split; [reflexivity|].
  destruct (calls_leave_locks_free
              Stub.GetSchemaByID Stub.getProtobufDecoder Stub.getAvroDecoder
              (Stub.processor ∅) s') as (Hidle & _ & Hprocess & _).
  - split; reflexivity.
  - apply rtc_once. eapply (call_Close _ _ _ None []); [|exact Hrun].
    unfold visits. simpl. rewrite map_to_list_empty. reflexivity.
  - split; [exact Hidle|apply Hprocess].
Defined.

Lemma getDecoder_callers_lock_safety_witness :
  ∃ p, stub_run_schedule Stub.schedule (mkPool (Stub.processor ∅) (enter Stub.callers))
       = Some p
       ∧ idle (shared p).
Proof.
  destruct (stub_run_schedule Stub.schedule
              (mkPool (Stub.processor ∅) (enter Stub.callers)))
    as [p|] eqn:Hrun; [|vm_compute in Hrun; discriminate].
  exists p. split; [reflexivity|].
  assert (Hall : Forall (λ it, is_returned it.2 = true) (threads p)).
  { vm_compute in Hrun. injection Hrun as <-. repeat constructor. }
  destruct (getDecoder_callers_lock_safety
              Stub.GetSchemaByID Stub.getProtobufDecoder Stub.getAvroDecoder
              Stub.callers (length Stub.schedule) (Stub.processor ∅) p)
    as (_ & _ & _ & _ & _ & Hdone).
  - split; reflexivity.
  - by apply run_schedule_nsteps.
  - by apply Hdone.
Defined.

Lemma cached_callers_bypass_requestMut_witness :
  ∃ p, stub_run_schedule
         ((λ i, (i, Stub.at_second_2000)) <$> [0; 1; 0; 1; 0; 1; 1; 0]%nat)
         (mkPool (Stub.processor Stub.three_entries) (enter [2; 9]))
       = Some p
       ∧ fetches 2 (shared p) = 0%nat
       ∧ ∃ t, threads p !! 0%nat = Some (2, t) ∧ holds_requestMut t = false.
Proof.
  destruct (stub_run_schedule
              ((λ i, (i, Stub.at_second_2000)) <$> [0; 1; 0; 1; 0; 1; 1; 0]%nat)
              (mkPool (Stub.processor Stub.three_entries) (enter [2; 9])))
    as [p|] eqn:Hrun; [|vm_compute in Hrun; discriminate].
  exists p. split; [reflexivity|].
  destruct (cached_callers_bypass_requestMut
              Stub.GetSchemaByID Stub.getProtobufDecoder Stub.getAvroDecoder
              2 [2; 9] 8 (Stub.processor Stub.three_entries) p
              (mkCached 100 (Some Stub.decode)))
    as (Hn & _ & Hpath).
  - split; reflexivity.
  - reflexivity.
  - by apply (run_schedule_nsteps _ _ _ _ _ _ Hrun).
  - split; [exact Hn|].
    destruct (threads p !! 0%nat) as [[id t]|] eqn:H0;
      [|vm_compute in Hrun; injection Hrun as <-; discriminate].
    assert (id = 2) as ->.
    { vm_compute in Hrun. injection Hrun as <-. by injection H0 as <- _. }
    exists t. split; [reflexivity|]. by apply (Hpath 0%nat t).
Defined.

Lemma getDecoder_calls_at_most_one_fetch_witness :
  ∃ r s', stub_getDecoder Stub.at_second_2000 7 (Stub.processor Stub.three_entries) =
          Return (r, s')
          ∧ fetches 1 s' = 0%nat ∧ (fetches 7 s' ≤ 1)%nat.
Proof.
  destruct (stub_getDecoder Stub.at_second_2000 7 (Stub.processor Stub.three_entries))
    as [[r s']| |] eqn:Hrun; try (vm_compute in Hrun; discriminate).
  exists r, s'. split; [reflexivity|].
  destruct (getDecoder_calls_at_most_one_fetch
              Stub.GetSchemaByID Stub.getProtobufDecoder Stub.getAvroDecoder
              Stub.at_second_2000 7 (Stub.processor Stub.three_entries) s' r)
    as (_ & _ & Hle & Hother).
  - split; reflexivity.
  - exact Hrun.
  - split; [|exact Hle]. rewrite Hother by discriminate. reflexivity.
Defined.
